(** * Conversation and messaging subsystem of the business directory server

    A shallow embedding of the server side of the messaging code:

    - [server/routes/message.ts]: the REST handlers (send, search users,
      list conversations, list messages, mark read);
    - [server/middleware/messageAuth.ts]: the authorization middleware mounted in
      front of the two per-conversation routes;
    - [server/middleware/auth.ts] and the token methods of
      [server/models/User.ts]: how a bearer token is resolved, issued and
      revoked, and the logout route of [server/routes/auth.ts];
    - the server entry point: the Socket.io handshake middleware and the
      connection handler, and [server/websocket.ts], an alternative gateway
      that the entry point never calls.

    The document store is a record of three collections, each a list of
    documents in insertion order.  Texts are held as their UTF-8 bytes.
    The ids of stored documents are kept in canonical string form; an id
    spelled by a client is a string until the driver has cast it, and where
    the code hands the database a string to compare with an ObjectId the
    two are different values.  Everything the code obtains from its
    environment (clock readings, identifiers of new documents, the cast of
    a string to an ObjectId, the order a database sort gives to equal keys,
    JWT signing and verification, regular expressions) is a parameter. *)

From stdpp Require Import base list strings gmap sorting.
From Stdlib Require Import ZArith Lia Ascii.

Local Open Scope string_scope.

(** Settles a decidable statement about concrete data by running its
    decision procedure. *)
Ltac by_running := apply (bool_decide_unpack _); vm_compute; exact I.

(** ** The fragment of JavaScript the handlers rely on *)

Module Js.

(** Texts are held as their UTF-8 bytes.

    The one-byte white space and line terminators of ECMAScript: TAB, LF,
    VT, FF, CR and SPACE. *)
Definition isWhiteSpace (c : ascii) : bool :=
  let n := nat_of_ascii c in
  (n =? 32)%nat || ((9 <=? n)%nat && (n <=? 13)%nat).

(** The two-byte one: U+00A0, no-break space. *)
Definition isBlank2 (c1 c2 : ascii) : bool :=
  (nat_of_ascii c1 =? 194)%nat && (nat_of_ascii c2 =? 160)%nat.

(** The three-byte ones: U+1680, U+2000 to U+200A, U+2028, U+2029, U+202F,
    U+205F, U+3000 and U+FEFF. *)
Definition isBlank3 (c1 c2 c3 : ascii) : bool :=
  let n1 := nat_of_ascii c1 in
  let n2 := nat_of_ascii c2 in
  let n3 := nat_of_ascii c3 in
  ((n1 =? 225)%nat && (n2 =? 154)%nat && (n3 =? 128)%nat)
  || ((n1 =? 226)%nat && (n2 =? 128)%nat
      && (((128 <=? n3)%nat && (n3 <=? 138)%nat)
          || (n3 =? 168)%nat || (n3 =? 169)%nat || (n3 =? 175)%nat))
  || ((n1 =? 226)%nat && (n2 =? 129)%nat && (n3 =? 159)%nat)
  || ((n1 =? 227)%nat && (n2 =? 128)%nat && (n3 =? 128)%nat)
  || ((n1 =? 239)%nat && (n2 =? 187)%nat && (n3 =? 191)%nat).

(** A text that is exactly one white space character. *)
Definition isBlankText (s : string) : bool :=
  match s with
  | String c1 EmptyString => isWhiteSpace c1
  | String c1 (String c2 EmptyString) => isBlank2 c1 c2
  | String c1 (String c2 (String c3 EmptyString)) => isBlank3 c1 c2 c3
  | _ => false
  end.

Fixpoint trimStart (s : string) : string :=
  match s with
  | EmptyString => EmptyString
  | String c1 rest1 =>
      if isWhiteSpace c1 then trimStart rest1
      else
        match rest1 with
        | EmptyString => s
        | String c2 rest2 =>
            if isBlank2 c1 c2 then trimStart rest2
            else
              match rest2 with
              | EmptyString => s
              | String c3 rest3 =>
                  if isBlank3 c1 c2 c3 then trimStart rest3 else s
              end
        end
  end.

(** With the end of the rest trimmed, what is left ends in white space only
    if it is one white space character and nothing else. *)
Fixpoint trimEnd (s : string) : string :=
  match s with
  | EmptyString => EmptyString
  | String c rest =>
      let kept := String c (trimEnd rest) in
      if isBlankText kept then EmptyString else kept
  end.

(** [String.prototype.trim]. *)
Definition trim (s : string) : string := trimEnd (trimStart s).

(** Truthiness of a value that is either [undefined] or a string. *)
Definition truthy (v : option string) : bool :=
  match v with
  | Some (String _ _) => true
  | _ => false
  end.

(** [Array.prototype.sort] without a comparator: ascending by code
    units. *)
Fixpoint insertSorted (x : string) (l : list string) : list string :=
  match l with
  | [] => [x]
  | y :: rest => if String.leb x y then x :: l else y :: insertSorted x rest
  end.

Definition sort (l : list string) : list string := foldr insertSorted [] l.

(** [Array.prototype.toString]: the elements joined by commas. *)
Definition toString (l : list string) : string := String.concat "," l.

End Js.

(** ** Documents *)

(** An ObjectId, written in its canonical form: what [toString] gives, 24
    lower-case hexadecimal digits.  The ids of stored documents and the
    [_id] that [auth] puts on the request are of this kind; an id spelled
    by a client (in a body, a path or a token) is a mere string until the
    driver has cast it. *)
Abbreviation ObjectId := string (only parsing).

(** The fields of a [User] document that the messaging code reads. *)
Record UserDoc := mkUser {
  u_id : ObjectId;
  u_email : string;
  u_role : string
}.

(** Modelled from the spec: the [Conversation] document, whose schema file
    ([models/Conversation]) is not among the sources.  The data model gives
    it two participants and a last-activity time; the handlers read and
    write [participants] and [lastActive]. *)
Record ConversationDoc := mkConversation {
  c_id : ObjectId;
  c_participants : list ObjectId;
  c_lastActive : Z
}.

(** Modelled from the spec: the [Message] document, whose schema file
    ([models/Message]) is not among the sources.  A message starts unread
    and carries the time of its creation. *)
Record MessageDoc := mkMessage {
  m_id : ObjectId;
  m_conversation : ObjectId;
  m_sender : ObjectId;
  m_receiver : ObjectId;
  m_content : string;
  m_read : bool;
  m_createdAt : Z
}.

Record Store := mkStore {
  users : list UserDoc;
  conversations : list ConversationDoc;
  messages : list MessageDoc
}.

#[global] Instance UserDoc_eq_dec : EqDecision UserDoc.
Proof. solve_decision. Defined.
#[global] Instance ConversationDoc_eq_dec : EqDecision ConversationDoc.
Proof. solve_decision. Defined.
#[global] Instance MessageDoc_eq_dec : EqDecision MessageDoc.
Proof. solve_decision. Defined.

(** [req.user] as the REST [auth] middleware and the socket handshake build
    it. *)
Record AuthUser := mkAuthUser {
  au_id : ObjectId;
  au_email : string;
  au_role : string
}.

(** ** Requests, responses and realtime events *)

(** The parts of an Express request the messaging code reads.  Path
    parameters and the fields of the JSON body are strings when present; a
    field that is absent reads as [undefined]. *)
Record Request := mkRequest {
  req_params : gmap string string;
  req_body : gmap string string;
  req_user : option AuthUser;
  req_conversation : option ConversationDoc
}.

(** A message with its [sender] path populated. *)
Record PopulatedMessage := mkPopulated {
  pm_message : MessageDoc;
  pm_sender : option UserDoc
}.

(** One element of the aggregate of [GET /]. *)
Record ConversationSummary := mkSummary {
  cs_conversation : ConversationDoc;
  cs_participants : list UserDoc;
  cs_unreadCount : nat
}.

Inductive Json :=
| JError (error : string)
| JAuthError
| JMessage (m : PopulatedMessage)
| JMessages (l : list PopulatedMessage)
| JConversations (l : list ConversationSummary)
| JRead (modifiedCount : nat).

Record Response := mkResponse {
  status : nat;
  json : Json
}.

Inductive Payload :=
| NewMessage (conversationId : ObjectId) (message : PopulatedMessage)
| MessagesRead (conversationId : string) (readerId : ObjectId).

(** [io.to(room).emit(event, payload)]. *)
Record Emit := mkEmit {
  emit_room : string;
  emit_event : string;
  emit_payload : Payload
}.

(** What one request leaves behind. *)
Record Outcome := mkOutcome {
  response : Response;
  store : Store;
  emitted : list Emit
}.

Definition reply (st : Store) (code : nat) (j : Json) : Outcome :=
  mkOutcome (mkResponse code j) st [].

(** Readings of the server clock during one [POST /send]: when the upsert
    inserts a conversation, when the message is saved, and the [new Date()]
    assigned to [lastActive]. *)
Record Clock := mkClock {
  at_upsert : Z;
  at_save : Z;
  at_touch : Z
}.

(** ** Queries on the collections *)

(** The lookups by [_id], on an id that has been cast. *)
Definition User_findById (st : Store) (id : ObjectId) : option UserDoc :=
  List.find (λ u, bool_decide (u_id u = id)) (users st).

Definition Message_findById (st : Store) (id : ObjectId) : option MessageDoc :=
  List.find (λ m, bool_decide (m_id m = id)) (messages st).

(** A value as the database compares it: an ObjectId and a string are
    different values, also when the string spells the id. *)
Inductive Bson :=
| BObjectId (id : ObjectId)
| BString (s : string).

#[global] Instance Bson_eq_dec : EqDecision Bson.
Proof. solve_decision. Defined.

(** The filter [{ participants: { $all: [a, b], $size: 2 } }]. *)
Definition pairFilter (a b : ObjectId) (c : ConversationDoc) : bool :=
  bool_decide (a ∈ c_participants c) &&
  bool_decide (b ∈ c_participants c) &&
  (length (c_participants c) =? 2)%nat.

(** The filter of [Message.updateMany] in the read route and of the
    [$lookup] in the conversation list: unread, in this conversation,
    addressed to this user. *)
Definition unreadFor (cid : string) (uid : ObjectId) (m : MessageDoc) : Prop :=
  m_conversation m = cid ∧ m_receiver m = uid ∧ m_read m = false.

#[global] Instance unreadFor_dec cid uid m : Decision (unreadFor cid uid m).
Proof. unfold unreadFor. apply _. Defined.

Definition setRead (m : MessageDoc) : MessageDoc :=
  mkMessage (m_id m) (m_conversation m) (m_sender m) (m_receiver m)
            (m_content m) true (m_createdAt m).

Definition touch (t : Z) (c : ConversationDoc) : ConversationDoc :=
  mkConversation (c_id c) (c_participants c) t.

(** ** Reference instances of the environment

    Concrete stand-ins for what the server takes from its libraries, used to
    run the handlers on sample data. *)

Definition isHexDigit (c : ascii) : bool :=
  let n := nat_of_ascii c in
  ((48 <=? n)%nat && (n <=? 57)%nat) ||
  ((97 <=? n)%nat && (n <=? 102)%nat) ||
  ((65 <=? n)%nat && (n <=? 70)%nat).

Fixpoint allChars (p : ascii → bool) (s : string) : bool :=
  match s with
  | EmptyString => true
  | String c rest => p c && allChars p rest
  end.

(** The 24-digit hexadecimal form of an ObjectId. *)
Definition hex24 (s : string) : bool :=
  (String.length s =? 24)%nat && allChars isHexDigit s.

Definition lowerCase (c : ascii) : ascii :=
  let n := nat_of_ascii c in
  if (65 <=? n)%nat && (n <=? 90)%nat then ascii_of_nat (n + 32) else c.

Fixpoint toLowerCase (s : string) : string :=
  match s with
  | EmptyString => EmptyString
  | String c rest => String (lowerCase c) (toLowerCase rest)
  end.

(** A cast that takes the 24 hexadecimal digits in either case. *)
Definition castHex (s : string) : option ObjectId :=
  if hex24 s then Some (toLowerCase s) else None.

(** Identifiers numbered by the size of the collection, with a leading
    digit that tells the collections apart. *)
Definition countingId (collection : string) (ids : list ObjectId) : ObjectId :=
  (if bool_decide (collection = "conversations") then "c" else "e") ++
  "0000000000000000000000" ++
  String (ascii_of_nat (48 + (length ids) mod 10)) EmptyString.

(** Insertion sort on a numeric key; [before] decides whether the element
    being inserted goes in front of one already placed. *)
Fixpoint insertBy {A : Type} (before : Z → Z → bool) (key : A → Z) (x : A)
    (l : list A) : list A :=
  match l with
  | [] => [x]
  | y :: rest =>
      if before (key x) (key y) then x :: l else y :: insertBy before key x rest
  end.

(** Equal keys keep their input order. *)
Definition stableSort (A : Type) (key : A → Z) (l : list A) : list A :=
  foldr (insertBy Z.leb key) [] l.

(** What a sort stage promises: the same documents, in non-decreasing key
    order; nothing about documents with equal keys. *)
Definition SortStage (srt : ∀ A : Type, (A → Z) → list A → list A) : Prop :=
  ∀ (A : Type) (key : A → Z) (l : list A),
    srt A key l ≡ₚ l ∧ Sorted (λ x y, key x ≤ key y)%Z (srt A key l).

Definition alice : UserDoc := mkUser "64b000000000000000000001" "alice@example.org" "user".
Definition bob : UserDoc := mkUser "64b000000000000000000002" "bob@example.org" "business".
Definition carol : UserDoc := mkUser "64b000000000000000000003" "carol@example.org" "business".
Definition dave : UserDoc := mkUser "64b000000000000000000004" "dave@example.org" "admin".
Definition erin : UserDoc := mkUser "64b000000000000000000005" "erin@example.org" "user".

Definition asCaller (u : UserDoc) : AuthUser := mkAuthUser (u_id u) (u_email u) (u_role u).

Definition sendBody (receiverId content : string) : gmap string string :=
  {[ "receiverId" := receiverId; "content" := content ]}.

Definition directory : Store := mkStore [alice; bob; carol; dave; erin] [] [].

Definition noon : Clock := mkClock 1700000000000 1700000000000 1700000000000.

(** A token verifier that knows three tokens: one whose claims carry [_id],
    one carrying [id] as the tokens signed by [generateAuthToken] do, and one
    naming a user that does not exist. *)
Definition sampleVerify (token : string) : option (gmap string string) :=
  if bool_decide (token = "token-with-_id") then Some {[ "_id" := u_id alice ]}
  else if bool_decide (token = "token-with-id") then Some {[ "id" := u_id alice ]}
  else if bool_decide (token = "token-of-nobody") then Some {[ "_id" := "64b0000000000000000000ff" ]}
  else None.

(** The store after alice's first message to bob, sent at [noon]. *)
Definition helloChat : Store :=
  mkStore [alice; bob; carol; dave; erin]
    [mkConversation "c00000000000000000000000" [u_id alice; u_id bob] 1700000000000]
    [mkMessage "e00000000000000000000000" "c00000000000000000000000"
               (u_id alice) (u_id bob) "Hello" false 1700000000000].

(** The store after alice's first message to dave, an admin. *)
Definition adminChat : Store :=
  mkStore [alice; bob; carol; dave; erin]
    [mkConversation "c00000000000000000000000" [u_id alice; u_id dave] 1700000000000]
    [mkMessage "e00000000000000000000000" "c00000000000000000000000"
               (u_id alice) (u_id dave) "Hello" false 1700000000000].

(** Half a second after [noon]. *)
Definition later : Clock := mkClock 1700000000500 1700000000500 1700000000500.

(** The store after bob's answer to alice, sent [later]. *)
Definition replyChat : Store :=
  mkStore [alice; bob; carol; dave; erin]
    [mkConversation "c00000000000000000000000" [u_id alice; u_id bob] 1700000000500]
    [mkMessage "e00000000000000000000000" "c00000000000000000000000"
               (u_id alice) (u_id bob) "Hello" false 1700000000000;
     mkMessage "e00000000000000000000001" "c00000000000000000000000"
               (u_id bob) (u_id alice) "Hi" false 1700000000500].

(** U+00A0, the no-break space, in UTF-8. *)
Definition nbsp : string :=
  String (ascii_of_nat 194) (String (ascii_of_nat 160) EmptyString).

(** The contents of a message list answer, in the order listed. *)
Definition listedContents (o : Outcome) : list string :=
  match json (response o) with
  | JMessages l => (λ p, m_content (pm_message p)) <$> l
  | _ => []
  end.

(** ** Role names

    The interaction test of the middleware compares role lists after joining them
    with commas, so what it decides depends on the names holding no comma
    themselves; the three roles of the user schema hold none. *)
Definition noComma (s : string) : Prop :=
  allChars (λ c, negb (Ascii.eqb c ",")) s = true.

(** ** The REST side *)

(** What a middleware does with a request: pass it on, or answer. *)
Inductive Handoff :=
| Next (req : Request)
| Stop (r : Response).

(** What [Message.findById(..).populate(..)] resolves to in the middleware: a
    message whose [conversation] path holds the conversation, whose
    participants in turn hold [_id] and [role] of the users. *)
Record PopulatedLookup := mkLookup {
  pl_message : MessageDoc;
  pl_conversation : option (ConversationDoc * list UserDoc)
}.

(** What a property read on that document can yield. *)
Inductive PathValue :=
| AnId (id : ObjectId)
| Text (s : string)
| Flag (b : bool)
| Time (t : Z)
| Users (l : list UserDoc)
| Populated (c : option (ConversationDoc * list UserDoc)).

(** A property read on the document, by path name: the paths of a message,
    and [undefined] for any other name.  The participants are not a path of
    the message; they sit one level down, under [conversation]. *)
Definition readPath (doc : PopulatedLookup) (path : string) : option PathValue :=
  let m := pl_message doc in
  if bool_decide (path = "_id") then Some (AnId (m_id m))
  else if bool_decide (path = "conversation") then Some (Populated (pl_conversation doc))
  else if bool_decide (path = "sender") then Some (AnId (m_sender m))
  else if bool_decide (path = "receiver") then Some (AnId (m_receiver m))
  else if bool_decide (path = "content") then Some (Text (m_content m))
  else if bool_decide (path = "read") then Some (Flag (m_read m))
  else if bool_decide (path = "createdAt") then Some (Time (m_createdAt m))
  else None.

Definition validInteractionTypes : list (list string) :=
  [ ["user"; "user"]; ["user"; "business"]; ["business"; "business"] ].

(** The interaction-type test of the middleware on the participants'
    roles. *)
Definition isValidInteraction (roles : list string) : bool :=
  let normalizedRoles := Js.toString (Js.sort roles) in
  existsb (λ types, bool_decide (Js.toString (Js.sort types) = normalizedRoles))
          validInteractionTypes.

Section Server.

#[local] Set Default Proof Using "Type".

(** [new mongoose.Types.ObjectId(s)], which is also how Mongoose casts the
    string [s] where a schema path holds an ObjectId: the id in canonical
    form, or nothing when the constructor throws. *)
Variable castId : string → option ObjectId.

(** [mongoose.Types.ObjectId.isValid]: whether the constructor takes the
    value. *)
Definition isValid (s : string) : bool :=
  match castId s with
  | Some _ => true
  | None => false
  end.

(** The [_id] given to a document inserted into the named collection,
    which holds the listed ids. *)
Variable newId : string → list ObjectId → ObjectId.

(** The sort stage of the database, ascending on a numeric key. *)
Variable dbSort : ∀ A : Type, (A → Z) → list A → list A.

(** It keeps the promise of [SortStage]; how it orders equal keys is left
    open. *)
Hypothesis dbSort_ok : SortStage dbSort.

(** [.sort({ field: direction })], with direction [1] or [-1]. *)
Definition sortBy {A : Type} (key : A → Z) (direction : Z) (l : list A) : list A :=
  dbSort A (λ x, direction * key x)%Z l.

(** *** middleware/auth.ts

    [identity] is what the identity provider resolves the bearer token to
    ([jwt.verify] followed by the [User.findOne] on id and token). *)
Definition auth (identity : option AuthUser) (req : Request) : Handoff :=
  match identity with
  | None => Stop (mkResponse 401 JAuthError)
  | Some u =>
      Next (mkRequest (req_params req) (req_body req) (Some u) (req_conversation req))
  end.

(** *** middleware/messageAuth.ts

    [Message.findById(id)]: Mongoose turns an [undefined] id into a search
    for [_id: null], which no document has; an id that cannot be cast makes
    the query throw.  The middleware names the result of its lookup
    [conversation] and casts it to [{ participants }]; what it holds is the
    populated message.  Calling [some] on a [participants] that is not an
    array throws.  The [catch] answers either throw with 500. *)
Definition populateLookup (st : Store) (m : MessageDoc) : PopulatedLookup :=
  mkLookup m
    ((λ c, (c, omap (User_findById st) (c_participants c))) <$>
       List.find (λ c, bool_decide (c_id c = m_conversation m)) (conversations st)).

Definition messageAuthorization (st : Store) (req : Request) : Handoff :=
  let found :=
    match req_params req !! "id" with
    | None => Some None
    | Some id => Message_findById st <$> castId id
    end in
  match found with
  | None => Stop (mkResponse 500 (JError "Authorization check failed"))
  | Some None => Stop (mkResponse 404 (JError "Conversation not found"))
  | Some (Some message) =>
      let conversation := populateLookup st message in
      match readPath conversation "participants" with
      | Some (Users participants) =>
          let isParticipant :=
            existsb (λ p, bool_decide (Some (u_id p) = au_id <$> req_user req))
                    participants in
          if negb isParticipant then
            Stop (mkResponse 403 (JError "Not authorized to access this conversation"))
          else if negb (isValidInteraction (u_role <$> participants)) then
            Stop (mkResponse 403
                    (JError "Unauthorized conversation type between these roles"))
          else Next req
      | _ => Stop (mkResponse 500 (JError "Authorization check failed"))
      end
  end.

(** *** routes/message.ts: [POST /send]

    The receiver id is tested and looked up as the body spells it.  The
    lookup, the filter and the insert of the upsert and the new message
    hold it cast; the room of the emit is named by the spelling.  The
    sender id is the canonical form that [auth] put on the request. *)

(** [Conversation.findOneAndUpdate(filter, { $setOnInsert }, { new: true,
    upsert: true })]: the first conversation matching the pair, or a new
    one with the participants in the order given.  A new document takes the
    clock reading [t] as its [lastActive]; the handler overwrites it before
    it answers. *)
Definition Conversation_findOneAndUpdate (t : Z) (st : Store)
    (senderId receiverId : ObjectId) : ConversationDoc * Store :=
  match List.find (pairFilter senderId receiverId) (conversations st) with
  | Some c => (c, st)
  | None =>
      let c := mkConversation (newId "conversations" (c_id <$> conversations st))
                              [senderId; receiverId] t in
      (c, mkStore (users st) (conversations st ++ [c]) (messages st))
  end.

Definition Message_save (m : MessageDoc) (st : Store) : Store :=
  mkStore (users st) (conversations st) (messages st ++ [m]).

(** [conversation.lastActive = t; conversation.save()]. *)
Definition Conversation_save (id : ObjectId) (t : Z) (st : Store) : Store :=
  mkStore (users st)
          ((λ c, if bool_decide (c_id c = id) then touch t c else c) <$> conversations st)
          (messages st).

Definition post_send (clock : Clock) (st : Store) (req : Request) : Outcome :=
  match req_user req with
  | None => reply st 500 (JError "Failed to send message")
  | Some user =>
      let senderId := au_id user in
      match req_body req !! "receiverId" with
      | None => reply st 400 (JError "Invalid receiver ID")
      | Some receiverId =>
          let content := req_body req !! "content" in
          if negb (isValid receiverId) then
            reply st 400 (JError "Invalid receiver ID")
          else if negb (Js.truthy (Js.trim <$> content)) then
            reply st 400 (JError "Message content is required")
          else
            match castId receiverId with
            | None => reply st 500 (JError "Failed to send message")
            | Some receiverOid =>
                match User_findById st receiverOid with
                | None => reply st 404 (JError "Invalid recipient")
                | Some receiver =>
                    if bool_decide (u_id receiver = senderId) then
                      reply st 404 (JError "Invalid recipient")
                    else if bool_decide (au_role user = "business")
                            && negb (bool_decide (u_role receiver = "user")) then
                      reply st 403 (JError "Businesses can only message individual users")
                    else
                      let '(conversation, st1) :=
                        Conversation_findOneAndUpdate (at_upsert clock) st senderId
                                                      receiverOid in
                      let message :=
                        mkMessage (newId "messages" (m_id <$> messages st1))
                                  (c_id conversation) senderId receiverOid
                                  (Js.trim (default "" content)) false (at_save clock) in
                      let st2 := Message_save message st1 in
                      let st3 :=
                        Conversation_save (c_id conversation) (at_touch clock) st2 in
                      let populatedMessage :=
                        mkPopulated message (User_findById st3 senderId) in
                      mkOutcome (mkResponse 201 (JMessage populatedMessage)) st3
                        [mkEmit receiverId "newMessage"
                                (NewMessage (c_id conversation) populatedMessage)]
                end
            end
      end
  end.

(** *** [GET /]

    An aggregation pipeline goes to the database as it is written:
    Mongoose casts nothing in it.  The value it is given to compare
    [participants] and [receiver] with is [req.user._id], the string that
    [auth] made of the id, while those paths hold ObjectIds. *)

(** The [$lookup] with [$count], then [$ifNull [$arrayElemAt [.., 0], 0]]:
    [$count] gives no document at all when nothing matches. *)
Definition unreadCount (st : Store) (receiver : Bson) (c : ConversationDoc) : nat :=
  let n := length (filter (λ m, m_conversation m = c_id c
                                ∧ BObjectId (m_receiver m) = receiver
                                ∧ m_read m = false) (messages st)) in
  let unread := if (n =? 0)%nat then [] else [n] in
  default 0%nat (head unread).

Definition aggregateFor (st : Store) (participant : Bson) : list (ConversationDoc * nat) :=
  let matched := filter (λ c, participant ∈ BObjectId <$> c_participants c)
                        (conversations st) in
  let counted := (λ c, (c, unreadCount st participant c)) <$> matched in
  sortBy (λ x, c_lastActive x.1) (-1) counted.

Definition get_conversations (st : Store) (req : Request) : Outcome :=
  match req_user req with
  | None => reply st 500 (JError "Failed to fetch conversations")
  | Some user =>
      let conversations := aggregateFor st (BString (au_id user)) in
      let populatedConversations :=
        (λ x, mkSummary x.1 (omap (User_findById st) (c_participants x.1)) x.2)
          <$> conversations in
      reply st 200 (JConversations populatedConversations)
  end.

(** *** [GET /:conversationId/messages]

    [Message.find] casts the conversation id of its filter; when that
    fails the query throws and the [catch] answers 500. *)
Definition findMessages (st : Store) (conversation : ObjectId) : list MessageDoc :=
  sortBy m_createdAt 1 (filter (λ m, m_conversation m = conversation) (messages st)).

Definition get_messages (st : Store) (conversationId : string) (req : Request) : Outcome :=
  match castId conversationId with
  | None => reply st 500 (JError "Failed to fetch messages")
  | Some conversation =>
      let messages := findMessages st conversation in
      reply st 200
        (JMessages ((λ m, mkPopulated m (User_findById st (m_sender m))) <$> messages))
  end.

(** *** [PATCH /:conversationId/read] *)

(** [{ $set: { read: true } }] on a document the filter matches. *)
Definition markOne (conversation : ObjectId) (uid : ObjectId) (m : MessageDoc) : MessageDoc :=
  if decide (unreadFor conversation uid m) then setRead m else m.

(** [Message.updateMany(filter, { $set: { read: true } })], on a filter that
    has been cast. *)
Definition Message_updateMany (conversation : ObjectId) (uid : ObjectId)
    (st : Store) : nat * Store :=
  (length (filter (unreadFor conversation uid) (messages st)),
   mkStore (users st) (conversations st)
     (markOne conversation uid <$> messages st)).

(** [Message.updateMany] casts the conversation id of its filter; when that
    fails it throws and the [catch] answers 500.  The payload of the emit
    carries the id as the path spelled it. *)
Definition patch_read (st : Store) (conversationId : string) (req : Request) : Outcome :=
  match req_user req with
  | None => reply st 500 (JError "Failed to mark messages as read")
  | Some user =>
      match castId conversationId with
      | None => reply st 500 (JError "Failed to mark messages as read")
      | Some conversationOid =>
          let '(modifiedCount, st') :=
            Message_updateMany conversationOid (au_id user) st in
          let notified :=
            match req_conversation req with
            | Some conversation =>
                match List.find (λ p, negb (bool_decide (p = au_id user)))
                                (c_participants conversation) with
                | Some otherParticipant =>
                    [mkEmit otherParticipant "messagesRead"
                            (MessagesRead conversationId (au_id user))]
                | None => []
                end
            | None => []
            end in
          mkOutcome (mkResponse 200 (JRead modifiedCount)) st' notified
      end
  end.

(** *** The routes as mounted

    Express hands the chain a request with the path parameters bound by
    the route pattern and neither [user] nor [conversation] set; each
    middleware either answers or passes the request on. *)
Definition incoming (params body : gmap string string) : Request :=
  mkRequest params body None None.

Definition answered (st : Store) (r : Response) : Outcome := mkOutcome r st [].

Definition route_send (clock : Clock) (st : Store) (identity : option AuthUser)
    (body : gmap string string) : Outcome :=
  match auth identity (incoming ∅ body) with
  | Stop r => answered st r
  | Next req => post_send clock st req
  end.

Definition route_conversations (st : Store) (identity : option AuthUser) : Outcome :=
  match auth identity (incoming ∅ ∅) with
  | Stop r => answered st r
  | Next req => get_conversations st req
  end.

Definition guarded (st : Store) (identity : option AuthUser) (conversationId : string)
    (handler : Request → Outcome) : Outcome :=
  match auth identity (incoming {[ "conversationId" := conversationId ]} ∅) with
  | Stop r => answered st r
  | Next req =>
      match messageAuthorization st req with
      | Stop r => answered st r
      | Next req' => handler req'
      end
  end.

Definition route_messages (st : Store) (identity : option AuthUser)
    (conversationId : string) : Outcome :=
  guarded st identity conversationId (get_messages st conversationId).

Definition route_read (st : Store) (identity : option AuthUser)
    (conversationId : string) : Outcome :=
  guarded st identity conversationId (patch_read st conversationId).


(** ** The realtime side: the Socket.io gateway of the server entry point *)

(** [jwt.verify(token, secret)]: the claims of a token that verifies. *)
Variable jwtVerify : string → option (gmap string string).

Inductive Phase := Connecting | Open | Closed.

(** One live connection: where it stands, [socket.data.user], the rooms the
    server code put it in (the private room Socket.io keeps for each socket
    under the socket's own id is left out), the error it was refused with,
    and what was emitted to it. *)
Record Connection := mkConnection {
  phase : Phase;
  data_user : option AuthUser;
  rooms : gset string;
  refusal : option string;
  outbox : list (string * string)
}.

Definition newConnection : Connection := mkConnection Connecting None ∅ None [].

Inductive ClientEvent :=
| Handshake (token : option string)
| JoinConversation (conversationId : string)
| Disconnect.

(** The [io.use] middleware: any failure on the way ends in
    [next(new Error('Authentication failed'))], be it a token that is
    missing or does not verify, claims without [_id], an [_id] that cannot
    be cast, or one that no user has. *)
Definition socketAuth (st : Store) (token : option string) : string + AuthUser :=
  match token with
  | None | Some EmptyString => inl "Authentication failed"
  | Some token =>
      match jwtVerify token with
      | None => inl "Authentication failed"
      | Some decoded =>
          match (decoded !! "_id" ≫= castId) ≫= User_findById st with
          | None => inl "Authentication failed"
          | Some user => inr (mkAuthUser (u_id user) (u_email user) (u_role user))
          end
      end
  end.

(** The head of the [io.on('connection')] handler. *)
Definition onConnection (c : Connection) : Connection :=
  match data_user c with
  | None => mkConnection Closed None ∅ (refusal c) (outbox c)
  | Some user =>
      mkConnection Open (Some user) ({[ au_id user ]} ∪ rooms c) (refusal c) (outbox c)
  end.

(** One event on one connection.  The listeners for [joinConversation] and
    [disconnect] are registered by the connection handler, so they exist
    only on an open connection; a refused handshake never reaches it. *)
Definition gateway_step (st : Store) (c : Connection) (ev : ClientEvent) : Connection :=
  match phase c, ev with
  | Connecting, Handshake token =>
      match socketAuth st token with
      | inl err => mkConnection Closed None ∅ (Some err) (outbox c)
      | inr user =>
          onConnection (mkConnection Connecting (Some user) (rooms c) (refusal c) (outbox c))
      end
  | Connecting, Disconnect => mkConnection Closed (data_user c) ∅ (refusal c) (outbox c)
  | Open, JoinConversation conversationId =>
      if negb (isValid conversationId) then
        mkConnection Open (data_user c) (rooms c) (refusal c)
                     (outbox c ++ [("error", "Invalid conversation ID")])
      else
        mkConnection Open (data_user c) ({[ conversationId ]} ∪ rooms c)
                     (refusal c) (outbox c)
  | Open, Disconnect => mkConnection Closed (data_user c) ∅ (refusal c) (outbox c)
  | _, _ => c
  end.

(** A connection's life: events, each met with the store of its moment. *)
Definition gateway_run (c : Connection) (trace : list (Store * ClientEvent)) : Connection :=
  foldl (λ c' ev, gateway_step ev.1 c' ev.2) c trace.

(** [setupWebSocket] of server/websocket.ts, which no module imports: every
    connection is accepted as it comes and may join any room. *)
Definition setupWebSocket_step (c : Connection) (ev : ClientEvent) : Connection :=
  match phase c, ev with
  | Connecting, Handshake _ =>
      mkConnection Open (data_user c) (rooms c) (refusal c) (outbox c)
  | Open, JoinConversation conversationId =>
      mkConnection Open (data_user c) ({[ conversationId ]} ∪ rooms c)
                   (refusal c) (outbox c)
  | Connecting, Disconnect | Open, Disconnect =>
      mkConnection Closed (data_user c) ∅ (refusal c) (outbox c)
  | _, _ => c
  end.

(** ** Sequences of sends *)

Record SendRequest := mkSend {
  sr_clock : Clock;
  sr_identity : option AuthUser;
  sr_body : gmap string string
}.

Definition send_step (st : Store) (r : SendRequest) : Store :=
  store (route_send (sr_clock r) st (sr_identity r) (sr_body r)).

Definition send_all (st : Store) (requests : list SendRequest) : Store :=
  foldl send_step st requests.

(** The participant set of a conversation is exactly the pair. *)
Definition samePair (a b : ObjectId) (c : ConversationDoc) : Prop :=
  list_to_set (c_participants c) =@{gset string} {[ a; b ]}.

#[global] Instance samePair_dec a b c : Decision (samePair a b c).
Proof. unfold samePair. apply _. Defined.

(** Every conversation has two participants, and no two conversations
    have the same pair of distinct participants. *)
Definition PairUnique (st : Store) : Prop :=
  Forall (λ c, length (c_participants c) = 2) (conversations st)
  ∧ ∀ a b, a ≠ b → (length (filter (samePair a b) (conversations st)) ≤ 1)%nat.

(** Unread messages of a conversation addressed to a user. *)
Definition unreadIn (st : Store) (cid : string) (uid : ObjectId) : nat :=
  length (filter (unreadFor cid uid) (messages st)).

(** ** Every write the handlers make

    Of the handlers of routes/message.ts only two write to the store: the
    send handler and the read handler. *)
Inductive Write :=
| WSend (clock : Clock) (req : Request)
| WRead (conversationId : string) (req : Request).

Definition write_step (st : Store) (w : Write) : Store :=
  match w with
  | WSend clock req => store (post_send clock st req)
  | WRead conversationId req => store (patch_read st conversationId req)
  end.

Definition write_all (st : Store) (ws : list Write) : Store := foldl write_step st ws.

(** The second message is the first one, possibly marked read since. *)
Definition sameButRead (m m' : MessageDoc) : Prop :=
  m_id m' = m_id m
  ∧ m_conversation m' = m_conversation m
  ∧ m_sender m' = m_sender m
  ∧ m_receiver m' = m_receiver m
  ∧ m_content m' = m_content m
  ∧ m_createdAt m' = m_createdAt m
  ∧ (m_read m = true → m_read m' = true).

(** The second conversation is the first one, possibly active since. *)
Definition sameButActivity (c c' : ConversationDoc) : Prop :=
  c_id c' = c_id c ∧ c_participants c' = c_participants c.

(** Every message goes between two different users, who are exactly the
    participants of a conversation that carries the message's conversation
    id. *)
Definition WellAddressed (st : Store) : Prop :=
  Forall (λ m, m_sender m ≠ m_receiver m
               ∧ ∃ c, c ∈ conversations st
                      ∧ c_id c = m_conversation m
                      ∧ samePair (m_sender m) (m_receiver m) c)
         (messages st).

(** ** Who an emit reaches

    [io.to(room).emit(..)] reaches the connections that are open and in the
    room. *)
Definition hears (c : Connection) (e : Emit) : Prop :=
  phase c = Open ∧ emit_room e ∈ rooms c.

(** ** Contents as stored *)





(** ** Accounts and their tokens: middleware/auth.ts and models/User.ts *)

(** A user document with the paths the token code reads and writes. *)
Record Account := mkAccount {
  a_user : UserDoc;
  a_tokens : list string;
  a_isActive : bool;
  a_lastLogin : option Z
}.

(** [jwt.sign(payload, secret, ..)] at a given reading of the clock. *)
Variable jwtSign : gmap string string → Z → string.

Fixpoint skip (n : nat) (s : string) : string :=
  match n, s with
  | S n', String _ rest => skip n' rest
  | _, _ => s
  end.

(** [s.replace(pattern, '')] with a string pattern: the first occurrence of
    the pattern goes, the rest stays. *)
Fixpoint removeFirst (pattern s : string) {struct s} : string :=
  if String.prefix pattern s then skip (String.length pattern) s
  else match s with
       | EmptyString => EmptyString
       | String c rest => String c (removeFirst pattern rest)
       end.

(** [req.header('Authorization')?.replace('Bearer ', '')]. *)
Definition bearerToken (authorization : option string) : option string :=
  removeFirst "Bearer " <$> authorization.

Definition identityOf (a : Account) : AuthUser :=
  mkAuthUser (u_id (a_user a)) (u_email (a_user a)) (u_role (a_user a)).

(** [User.findOne({ _id: id, 'tokens.token': token })], where [id] is the
    [id] claim of the decoded token; an [_id] of [undefined] is taken to
    match no document. *)
Definition User_findOne_token (accounts : list Account) (id : option ObjectId)
    (token : string) : option Account :=
  List.find (λ a, bool_decide (Some (u_id (a_user a)) = id)
                  && bool_decide (token ∈ a_tokens a)) accounts.

(** The body of the [auth] middleware up to [req.user]: [None] stands for
    any of the errors that end in the answer 401. *)
Definition authenticate (accounts : list Account) (authorization : option string)
    : option AuthUser :=
  match bearerToken authorization with
  | None | Some EmptyString => None
  | Some token =>
      match jwtVerify token with
      | None => None
      | Some decoded =>
          identityOf <$> User_findOne_token accounts (decoded !! "id") token
      end
  end.

(** [User.findByToken], with [JWT_SECRET] configured. *)
Definition User_findByToken (accounts : list Account) (token : string) : option Account :=
  match jwtVerify token with
  | None => None
  | Some decoded =>
      List.find (λ a, bool_decide (Some (u_id (a_user a)) = decoded !! "id")
                      && bool_decide (token ∈ a_tokens a)
                      && a_isActive a) accounts
  end.

(** [this.save()] of a loaded document. *)
Definition Account_save (this : Account) (accounts : list Account) : list Account :=
  (λ a, if bool_decide (u_id (a_user a) = u_id (a_user this)) then this else a)
    <$> accounts.

Definition tokenPayload (this : Account) : gmap string string :=
  {[ "id" := u_id (a_user this);
     "role" := u_role (a_user this);
     "email" := u_email (a_user this) ]}.

(** [generateAuthToken], with [JWT_SECRET] configured: the token, the
    document as the method leaves it, and the collection after the save. *)
Definition generateAuthToken (signedAt now : Z) (this : Account) (accounts : list Account)
    : string * Account * list Account :=
  let token := jwtSign (tokenPayload this) signedAt in
  let this' := mkAccount (a_user this) (a_tokens this ++ [token]) (a_isActive this)
                         (Some now) in
  (token, this', Account_save this' accounts).

Definition revokeToken (token : string) (this : Account) (accounts : list Account)
    : Account * list Account :=
  let this' := mkAccount (a_user this) (filter (λ t, t ≠ token) (a_tokens this))
                         (a_isActive this) (a_lastLogin this) in
  (this', Account_save this' accounts).

Definition revokeAllTokens (this : Account) (accounts : list Account)
    : Account * list Account :=
  let this' := mkAccount (a_user this) [] (a_isActive this) (a_lastLogin this) in
  (this', Account_save this' accounts).

(** routes/auth.ts, the handler of [POST /logout], on [req.user] and
    [req.token].  [req.user] is the plain object the middleware built from id,
    email and role: it has no method [revokeToken], so the call throws and
    [handleAuthError] answers 500. *)
Definition post_logout (accounts : list Account) (user : option AuthUser)
    (token : option string) : nat * string * list Account :=
  match user, Js.truthy token with
  | Some _, true => (500, "Internal server error", accounts)
  | _, _ => (400, "Invalid logout request", accounts)
  end.

(** The route as mounted, behind the middleware, which assigns [req.user]
    and nothing else: [req.token] is [undefined] when the handler runs. *)
Definition route_logout (accounts : list Account) (authorization : option string)
    : nat * list Account :=
  match auth (authenticate accounts authorization) (incoming ∅ ∅) with
  | Stop r => (status r, accounts)
  | Next req =>
      let '(code, _, accounts') := post_logout accounts (req_user req) None in
      (code, accounts')
  end.

(** No space anywhere, as in a token in the compact serialization. *)
Definition noSpace (s : string) : Prop :=
  allChars (λ c, negb (Ascii.eqb c " ")) s = true.

(** ** routes/message.ts: [GET /search/users] *)

(** A user document with the paths the search reads. *)
Record Profile := mkProfile {
  p_doc : UserDoc;
  p_businessName : option string
}.

(** [{ $regex: pattern, $options: 'i' }]: the test the pattern stands for,
    or nothing when the pattern is no regular expression and the database
    rejects the query. *)
Variable regex : string → option (string → bool).

Inductive SearchJson :=
| SAuthError
| SError (error : string)
| SUsers (l : list Profile).

(** The filter of the [User.find]: the pattern found in the email or in the
    business name, and an id other than the caller's. *)
Definition searchFilter (test : string → bool) (user : AuthUser) (p : Profile) : bool :=
  (test (u_email (p_doc p)) || from_option test false (p_businessName p))
  && negb (bool_decide (u_id (p_doc p) = au_id user)).

(** [query] is [req.query.query] when it is a string, and [None] when it is
    absent or anything else.  Reading [req.user!._id] of a request without
    user throws, which the [catch] answers with 500, as it does a query the
    database rejects. *)
Definition get_search_users (profiles : list Profile) (user : option AuthUser)
    (query : option string) : nat * SearchJson :=
  match query with
  | None | Some EmptyString =>
      (400, SError "Search query must be at least 2 characters")
  | Some query =>
      if (String.length query <? 2)%nat then
        (400, SError "Search query must be at least 2 characters")
      else
        match user, regex query with
        | Some user, Some test =>
            (200, SUsers (take 10 (List.filter (searchFilter test user) profiles)))
        | _, _ => (500, SError "Failed to search users")
        end
  end.

Definition route_search_users (profiles : list Profile) (identity : option AuthUser)
    (query : option string) : nat * SearchJson :=
  match auth identity (incoming ∅ ∅) with
  | Stop r => (status r, SAuthError)
  | Next req => get_search_users profiles (req_user req) query
  end.

(** ** Sample accounts and profiles *)

(** A signer for the tokens that [sampleVerify] knows. *)
Definition sampleSign (claims : gmap string string) (signedAt : Z) : string :=
  if bool_decide (claims !! "id" = Some (u_id alice)) then "token-with-id"
  else "token-of-nobody".

Definition aliceAccount : Account := mkAccount alice [] true None.

Definition registry : list Account :=
  [ aliceAccount; mkAccount bob [] true None ].

(** alice holds a token and has been switched off. *)
Definition aliceDormant : Account := mkAccount alice ["token-with-id"] false None.

Definition dormant : list Account :=
  [ aliceDormant; mkAccount bob [] true None ].

(** A pattern taken literally: the test is whether it occurs. *)
Definition sampleRegex (pattern : string) : option (string → bool) :=
  Some (λ s, match String.index 0 pattern s with Some _ => true | None => false end).

Definition bobProfile : Profile := mkProfile bob (Some "Bakery of Bob").

Definition carolProfile : Profile := mkProfile carol (Some "Carol Consulting").

Definition listing : list Profile :=
  [ mkProfile alice None; bobProfile; carolProfile;
    mkProfile dave None; mkProfile erin None ].

(** ** Facts about the queries *)

Lemma find_some_true {A : Type} (p : A → bool) (l : list A) (x : A) :
  List.find p l = Some x → x ∈ l ∧ p x = true.
Proof.
  intros H. apply find_some in H as [Hin Hp].
  split; [by apply list_elem_of_In | done].
Qed.

Lemma find_none_false {A : Type} (p : A → bool) (l : list A) (x : A) :
  List.find p l = None → x ∈ l → p x = false.
Proof.
  intros H Hin. apply list_elem_of_In in Hin.
  exact (find_none p l H x Hin).
Qed.

Lemma find_fmap_stable {A : Type} (p : A → bool) (f : A → A) (l : list A) :
  (∀ x, p (f x) = p x) → List.find p (f <$> l) = f <$> List.find p l.
Proof.
  intros Hp. induction l as [|x l IH]; [done|].
  simpl. rewrite Hp. destruct (p x); [done | exact IH].
Qed.

Lemma filter_none {A : Type} (P : A → Prop) `{!∀ x, Decision (P x)} (l : list A) :
  (∀ x, x ∈ l → ¬ P x) → filter P l = [].
Proof.
  induction l as [|x l IH]; intros Hall; [done|].
  rewrite filter_cons. destruct (decide (P x)) as [Hx|_].
  - destruct (Hall x); [left | done].
  - apply IH. intros y Hy. apply Hall. by right.
Qed.

Lemma find_app_none {A : Type} (p : A → bool) (l : list A) (x : A) :
  List.find p l = None → List.find p (l ++ [x]) = if p x then Some x else None.
Proof.
  induction l as [|y l IH]; simpl; [done|].
  destruct (p y); [done | exact IH].
Qed.

Lemma find_app_some {A : Type} (p : A → bool) (l k : list A) (x : A) :
  List.find p l = Some x → List.find p (l ++ k) = Some x.
Proof.
  induction l as [|y l IH]; simpl; [done|].
  destruct (p y); [done | exact IH].
Qed.

Lemma User_findById_id st id u : User_findById st id = Some u → u_id u = id.
Proof.
  intros H. apply find_some_true in H as [_ H].
  by apply bool_decide_eq_true in H.
Qed.

Lemma truthy_trim_some content :
  Js.truthy (Js.trim <$> Some content) = true ↔ Js.trim content ≠ "".
Proof.
  simpl. destruct (Js.trim content); simpl; split; intros; congruence.
Qed.

Lemma pairFilter_sym a b c : pairFilter a b c = pairFilter b a c.
Proof. unfold pairFilter. by rewrite (andb_comm (bool_decide (a ∈ _))). Qed.

Lemma pairFilter_touch a b t c : pairFilter a b (touch t c) = pairFilter a b c.
Proof. done. Qed.

Lemma pairFilter_new a b id t : pairFilter a b (mkConversation id [a; b] t) = true.
Proof.
  unfold pairFilter. simpl.
  rewrite !bool_decide_eq_true_2; [done | by right; left | by left].
Qed.

(** ** The middleware in front of the two per-conversation routes *)

(** The routes bind [conversationId]; the middleware looks up [id]. *)
Lemma messageAuthorization_mounted st conversationId body user conversation :
  messageAuthorization st
    (mkRequest {[ "conversationId" := conversationId ]} body user conversation)
  = Stop (mkResponse 404 (JError "Conversation not found")).
Proof.
  unfold messageAuthorization. simpl.
  by rewrite lookup_singleton_ne.
Qed.

(** Whatever the request, the middleware answers 404 or 500: it never lets a
    request through and never answers 403. *)
Lemma messageAuthorization_never_passes st req :
  messageAuthorization st req = Stop (mkResponse 404 (JError "Conversation not found"))
  ∨ messageAuthorization st req = Stop (mkResponse 500 (JError "Authorization check failed")).
Proof.
  unfold messageAuthorization.
  destruct (req_params req !! "id") as [id|]; [|auto].
  destruct (castId id) as [oid|]; simpl; [|auto].
  destruct (Message_findById st oid); simpl; auto.
Qed.

Lemma guarded_not_found st caller conversationId handler :
  guarded st (Some caller) conversationId handler
  = answered st (mkResponse 404 (JError "Conversation not found")).
Proof.
  unfold guarded, auth, incoming. simpl.
  by rewrite messageAuthorization_mounted.
Qed.

(** Neither middleware attaches a conversation to the request. *)
Lemma auth_keeps_conversation identity req req' :
  auth identity req = Next req' → req_conversation req' = req_conversation req.
Proof. unfold auth. destruct identity; intros [= <-]; done. Qed.

Lemma messageAuthorization_keeps_conversation st req req' :
  messageAuthorization st req = Next req' → req_conversation req' = req_conversation req.
Proof.
  destruct (messageAuthorization_never_passes st req) as [-> | ->]; discriminate.
Qed.

(** With no conversation on the request the read handler notifies nobody,
    however many messages it marked. *)
Lemma patch_read_silent st conversationId params body user :
  emitted (patch_read st conversationId (mkRequest params body user None)) = [].
Proof.
  unfold patch_read. simpl. destruct user; [|done].
  by destruct (castId conversationId).
Qed.

(** ** [POST /send]: the rejections *)

(** [isValid] and the cast go together. *)
Lemma isValid_cast receiverId receiverOid :
  castId receiverId = Some receiverOid → isValid receiverId = true.
Proof. unfold isValid. by intros ->. Qed.

(** C3 (amended).  A business caller addressing a business receiver is
    answered 403 and nothing is written or emitted, provided the request
    gets as far as the role check: the receiver id is a well-formed
    spelling of the id of a stored user, the trimmed content is not empty,
    and the receiver is not the caller. *)
Theorem business_to_business_forbidden
    clock st caller body receiverId receiverOid content receiver :
  au_role caller = "business" →
  body !! "receiverId" = Some receiverId →
  body !! "content" = Some content →
  castId receiverId = Some receiverOid →
  Js.trim content ≠ "" →
  User_findById st receiverOid = Some receiver →
  u_role receiver = "business" →
  receiverOid ≠ au_id caller →
  route_send clock st (Some caller) body
  = answered st (mkResponse 403 (JError "Businesses can only message individual users")).
Proof.
  intros Hrole Hr Hc Hcast Hcontent Hfind Hrrole Hself.
  unfold route_send, auth, incoming, post_send. simpl.
  rewrite Hr, Hc, (isValid_cast _ _ Hcast), Hcast. simpl.
  apply truthy_trim_some in Hcontent. simpl in Hcontent. rewrite Hcontent. simpl.
  rewrite Hfind.
  rewrite (User_findById_id _ _ _ Hfind).
  rewrite bool_decide_eq_false_2 by done.
  rewrite Hrole, Hrrole. done.
Qed.

(** C4 (amended).  A send whose trimmed content is empty, or whose receiver
    id resolves to no identity (it is missing, or cannot be cast, or is the
    id of no stored user), or is a spelling of the caller's own id, writes
    nothing and emits nothing.  It is answered 400 when the receiver id is
    missing or malformed or the content is blank, and 404 when a
    well-formed receiver id with non-blank content resolves to nobody or to
    the caller. *)
Theorem send_input_rejected clock st caller body :
  Js.truthy (Js.trim <$> body !! "content") = false
  ∨ (body !! "receiverId" ≫= castId) ≫= User_findById st = None
  ∨ body !! "receiverId" ≫= castId = Some (au_id caller) →
  store (route_send clock st (Some caller) body) = st
  ∧ emitted (route_send clock st (Some caller) body) = []
  ∧ status (response (route_send clock st (Some caller) body))
    = if from_option isValid false (body !! "receiverId")
         && Js.truthy (Js.trim <$> body !! "content")
      then 404 else 400.
Proof.
  intros H.
  unfold route_send, auth, incoming, post_send, isValid. simpl.
  destruct (body !! "receiverId") as [r|] eqn:Hr; simpl; [|done].
  simpl in H.
  destruct (castId r) as [oid|] eqn:Hcast; simpl; [|done].
  destruct (Js.truthy (Js.trim <$> body !! "content")) eqn:Hcontent; simpl; [|done].
  simpl in H.
  destruct (User_findById st oid) as [receiver|] eqn:Hfind; [|done].
  destruct H as [H | [H | H]]; [done | congruence |].
  injection H as ->.
  rewrite (User_findById_id _ _ _ Hfind).
  by rewrite bool_decide_eq_true_2.
Qed.

(** ** Marking messages read *)

Lemma markOne_not_unread conversationId uid m :
  ¬ unreadFor conversationId uid (markOne conversationId uid m).
Proof.
  unfold markOne. destruct (decide (unreadFor conversationId uid m)) as [H|H]; [|done].
  unfold unreadFor. simpl. intros (_ & _ & ?). done.
Qed.

Lemma markOne_idem conversationId uid m :
  markOne conversationId uid (markOne conversationId uid m) = markOne conversationId uid m.
Proof.
  unfold markOne at 1.
  destruct (decide _) as [H|H]; [|done].
  by apply markOne_not_unread in H.
Qed.

Lemma markOne_read conversationId uid m :
  markOne conversationId uid m
  = mkMessage (m_id m) (m_conversation m) (m_sender m) (m_receiver m) (m_content m)
      (m_read m || bool_decide (m_conversation m = conversationId ∧ m_receiver m = uid))
      (m_createdAt m).
Proof.
  unfold markOne, setRead.
  destruct (decide (unreadFor conversationId uid m)) as [(Hc & Hr & Hu)|H].
  - rewrite Hu. simpl. by rewrite bool_decide_eq_true_2.
  - destruct m as [i c s r t rd ts]. simpl in *. f_equal.
    destruct rd; [done|]. simpl. symmetry. apply bool_decide_eq_false_2.
    intros [? ?]. apply H. done.
Qed.

Lemma filter_unread_marked conversationId uid (l : list MessageDoc) :
  filter (unreadFor conversationId uid) (markOne conversationId uid <$> l) = [].
Proof.
  induction l as [|m l IH]; [done|].
  rewrite fmap_cons, filter_cons.
  destruct (decide _) as [H|_]; [|exact IH].
  by apply markOne_not_unread in H.
Qed.

(** What the read handler does once a request reaches it with a
    conversation id that can be cast: it answers with the number of
    messages of the conversation that were addressed to the caller and
    unread, turns exactly those to read (every message keeps its place and
    its other fields, and a message outside the conversation or addressed to
    someone else keeps its flag), and a second call right after answers
    [modifiedCount: 0] and leaves the store as it is. *)
Lemma patch_read_twice st conversationId conversationOid caller params body conversation :
  castId conversationId = Some conversationOid →
  let req := mkRequest params body (Some caller) conversation in
  let first := patch_read st conversationId req in
  let second := patch_read (store first) conversationId req in
  response first
  = mkResponse 200
      (JRead (length (filter (unreadFor conversationOid (au_id caller)) (messages st))))
  ∧ users (store first) = users st
  ∧ conversations (store first) = conversations st
  ∧ Forall2
      (λ m m',
         m' = mkMessage (m_id m) (m_conversation m) (m_sender m) (m_receiver m)
                (m_content m)
                (m_read m
                 || bool_decide (m_conversation m = conversationOid
                                 ∧ m_receiver m = au_id caller))
                (m_createdAt m))
      (messages st) (messages (store first))
  ∧ response second = mkResponse 200 (JRead 0)
  ∧ store second = store first.
Proof.
  intros Hcast. simpl. unfold patch_read, Message_updateMany. simpl.
  rewrite Hcast. simpl.
  repeat split.
  - apply Forall2_fmap_r, Forall_Forall2_diag, Forall_forall.
    intros m _. apply markOne_read.
  - by rewrite filter_unread_marked.
  - f_equal. rewrite <- list_fmap_compose.
    apply list_fmap_ext. intros i m _. apply markOne_idem.
Qed.

(** A conversation id that cannot be cast makes the handler answer 500 and
    write nothing. *)
Lemma patch_read_malformed st conversationId req :
  castId conversationId = None →
  status (response (patch_read st conversationId req)) = 500
  ∧ store (patch_read st conversationId req) = st
  ∧ emitted (patch_read st conversationId req) = [].
Proof.
  intros Hcast. unfold patch_read. rewrite Hcast. by destruct (req_user req).
Qed.

(** ** Listing *)

Lemma Sorted_weaken {A : Type} (R R' : relation A) (l : list A) :
  (∀ x y, R x y → R' x y) → Sorted R l → Sorted R' l.
Proof.
  intros HR. induction 1 as [|x l _ IH Hhd]; constructor; [done|].
  destruct Hhd; constructor. by apply HR.
Qed.

Lemma sortBy_ascending {A : Type} (key : A → Z) (l : list A) :
  sortBy key 1 l ≡ₚ l ∧ StronglySorted (λ x y, key x ≤ key y)%Z (sortBy key 1 l).
Proof using dbSort_ok.
  unfold sortBy. destruct (dbSort_ok A (λ x, 1 * key x)%Z l) as [Hp Hs].
  split; [done|].
  apply Sorted_StronglySorted; [intros x y z; lia|].
  eapply Sorted_weaken; [|exact Hs]. simpl. intros; lia.
Qed.

Lemma sortBy_descending {A : Type} (key : A → Z) (l : list A) :
  sortBy key (-1) l ≡ₚ l ∧ StronglySorted (λ x y, key y ≤ key x)%Z (sortBy key (-1) l).
Proof using dbSort_ok.
  unfold sortBy. destruct (dbSort_ok A (λ x, (-1) * key x)%Z l) as [Hp Hs].
  split; [done|].
  apply Sorted_StronglySorted; [intros x y z; lia|].
  eapply Sorted_weaken; [|exact Hs]. simpl. intros; lia.
Qed.

(** A list sorted on a key and a permutation of it whose keys strictly
    increase are the same list. *)
Lemma sorted_perm_of_strict {A : Type} (key : A → Z) (l1 l2 : list A) :
  l1 ≡ₚ l2 →
  StronglySorted (λ x y, key x ≤ key y)%Z l1 →
  StronglySorted (λ x y, key x < key y)%Z l2 →
  l1 = l2.
Proof.
  intros Hp Hs1 Hs2. revert l1 Hp Hs1.
  induction Hs2 as [|x l2 Hs2 IH Hx]; intros l1 Hp Hs1.
  - by apply Permutation_nil_r in Hp.
  - destruct l1 as [|y l1]; [by apply Permutation_nil_cons in Hp|].
    apply StronglySorted_inv in Hs1 as [Hs1 Hy].
    assert (y = x) as ->.
    { assert (y ∈ x :: l2) as Hin by (rewrite <- Hp; left).
      apply elem_of_cons in Hin as [->|Hin]; [done|].
      assert (x ∈ y :: l1) as Hin' by (rewrite Hp; left).
      apply elem_of_cons in Hin' as [->|Hin']; [done|].
      rewrite Forall_forall in Hx, Hy.
      specialize (Hx _ Hin). specialize (Hy _ Hin'). lia. }
    f_equal. apply IH; [|done]. by apply Permutation_cons_inv in Hp.
Qed.

(** What the list handler does once a request reaches it with a
    conversation id that can be cast: it returns exactly the messages of
    the conversation (each once, with its sender attached), in
    non-decreasing order of creation time; when the creation times strictly
    increase along the order of insertion the list is in that order.  The
    order of messages with equal creation times is the database's choice. *)
Lemma get_messages_sorted st conversationId conversationOid req :
  castId conversationId = Some conversationOid →
  let stored := filter (λ m, m_conversation m = conversationOid) (messages st) in
  ∃ listed,
    get_messages st conversationId req = reply st 200 (JMessages listed)
    ∧ pm_message <$> listed ≡ₚ stored
    ∧ StronglySorted (λ m m', m_createdAt m ≤ m_createdAt m')%Z (pm_message <$> listed)
    ∧ (StronglySorted (λ m m', m_createdAt m < m_createdAt m')%Z stored →
       pm_message <$> listed = stored).
Proof using dbSort_ok.
  intros Hcast stored. unfold get_messages. rewrite Hcast.
  eexists. split; [reflexivity|].
  rewrite <- list_fmap_compose.
  rewrite (list_fmap_ext _ id (findMessages st conversationOid))
    by (intros; done).
  rewrite list_fmap_id. unfold findMessages. fold stored.
  destruct (sortBy_ascending m_createdAt stored) as [Hp Hs].
  repeat split; [done | done |].
  intros Hstrict. by apply (sorted_perm_of_strict m_createdAt).
Qed.

(** ** The conversation list *)

(** A string is no element of an array of ObjectIds. *)
Lemma string_among_ids (s : string) (ids : list ObjectId) :
  BString s ∉ BObjectId <$> ids.
Proof. intros (id & Heq & _)%list_elem_of_fmap. discriminate Heq. Qed.

(** The aggregate of [GET /] matches no conversation at all: the value it
    holds against [participants] is a string. *)
Lemma aggregateFor_string st (s : string) : aggregateFor st (BString s) = [].
Proof using dbSort_ok.
  unfold aggregateFor.
  rewrite (filter_none (λ c, BString s ∈ BObjectId <$> c_participants c))
    by (intros c _; apply string_among_ids).
  destruct (sortBy_descending (λ x : ConversationDoc * nat, c_lastActive x.1) [])
    as [Hp _].
  simpl. by apply Permutation_nil_r in Hp.
Qed.

(** What [GET /] answers, for any store and caller: an empty list. *)
Lemma route_conversations_empty st identity :
  route_conversations st (Some identity) = reply st 200 (JConversations []).
Proof using dbSort_ok.
  unfold route_conversations, auth, incoming, get_conversations. simpl.
  by rewrite aggregateFor_string.
Qed.

(** *** What an accepted send writes *)

Lemma Conversation_findOneAndUpdate_found t st a b :
  let cs := Conversation_findOneAndUpdate t st a b in
  List.find (pairFilter a b) (conversations cs.2) = Some cs.1
  ∧ users cs.2 = users st
  ∧ messages cs.2 = messages st
  ∧ (∀ c0, List.find (pairFilter a b) (conversations st) = Some c0 → cs.1 = c0).
Proof.
  unfold Conversation_findOneAndUpdate.
  destruct (List.find (pairFilter a b) (conversations st)) as [c|] eqn:Hfind; simpl.
  - repeat split; [done|]. by intros c0 [= ->].
  - repeat split; [|done].
    rewrite (find_app_none _ _ _ Hfind). by rewrite pairFilter_new.
Qed.

Lemma Conversation_save_found a b c t st :
  List.find (pairFilter a b) (conversations st) = Some c →
  List.find (pairFilter a b) (conversations (Conversation_save (c_id c) t st))
  = Some (touch t c).
Proof.
  intros Hfind. unfold Conversation_save. simpl.
  rewrite find_fmap_stable.
  - rewrite Hfind. simpl. by rewrite bool_decide_eq_true_2.
  - intros x. by destruct (bool_decide _).
Qed.

(** ** One conversation per pair *)

Lemma samePair_pairFilter a b s r c :
  samePair a b c → length (c_participants c) = 2 →
  list_to_set [s; r] =@{gset string} {[ a; b ]} →
  pairFilter s r c = true.
Proof.
  unfold samePair, pairFilter. intros Hc Hlen Hsr.
  rewrite Hlen. rewrite <- Hsr in Hc.
  assert (∀ x, x ∈ c_participants c ↔ x = s ∨ x = r) as Hmem.
  { intros x. rewrite <- (elem_of_list_to_set (C := gset string)), Hc.
    rewrite elem_of_list_to_set, !elem_of_cons, elem_of_nil.
    split; [intros [->|[->|[]]]; auto | intros [->| ->]; auto]. }
  rewrite !bool_decide_eq_true_2; [done | |]; apply Hmem; auto.
Qed.

Lemma pairFilter_samePair a b c :
  a ≠ b → pairFilter a b c = true → samePair a b c.
Proof.
  unfold samePair, pairFilter. intros Hab H.
  apply andb_true_iff in H as [H Hlen]. apply andb_true_iff in H as [Ha Hb].
  apply bool_decide_eq_true in Ha, Hb. apply Nat.eqb_eq in Hlen.
  destruct (c_participants c) as [|x [|y [|z l]]]; simplify_eq/=.
  rewrite !elem_of_cons, elem_of_nil in Ha, Hb.
  rewrite (right_id_L ∅ (∪)).
  destruct Ha as [Ha|[Ha|[]]], Hb as [Hb|[Hb|[]]]; subst; try done.
  apply (comm_L (∪)).
Qed.

Lemma filter_samePair_touch a b (f : ConversationDoc → ConversationDoc)
    (l : list ConversationDoc) :
  (∀ c, c_participants (f c) = c_participants c) →
  length (filter (samePair a b) (f <$> l)) = length (filter (samePair a b) l).
Proof.
  intros Hf. induction l as [|c l IH]; [done|].
  assert (samePair a b (f c) ↔ samePair a b c) as Hiff
    by (unfold samePair; by rewrite Hf).
  rewrite fmap_cons, !filter_cons.
  destruct (decide (samePair a b (f c))) as [H1|H1],
           (decide (samePair a b c)) as [H2|H2]; simpl; rewrite ?IH; try done.
  - by apply Hiff in H1.
  - by apply Hiff in H2.
Qed.

Lemma PairUnique_findOneAndUpdate t st s r :
  PairUnique st → PairUnique (Conversation_findOneAndUpdate t st s r).2.
Proof.
  intros [Htwo Huniq]. unfold Conversation_findOneAndUpdate.
  destruct (List.find (pairFilter s r) (conversations st)) as [c|] eqn:Hfind;
    [done|].
  split; simpl.
  - apply Forall_app. split; [done|]. by repeat constructor.
  - intros a b Hab. rewrite filter_app, length_app.
    rewrite filter_cons, filter_nil.
    destruct (decide (samePair a b _)) as [Hnew|_]; simpl.
    + unfold samePair in Hnew. simpl in Hnew.
      assert (filter (samePair a b) (conversations st) = []) as ->; [|done].
      apply filter_none. intros c Hin Hc.
      rewrite Forall_forall in Htwo.
      pose proof (samePair_pairFilter a b s r c Hc (Htwo c Hin) Hnew) as Hp.
      by rewrite (find_none_false _ _ c Hfind Hin) in Hp.
    + specialize (Huniq a b Hab). lia.
Qed.

Lemma PairUnique_save id t m st :
  PairUnique st → PairUnique (Conversation_save id t (Message_save m st)).
Proof.
  intros [Htwo Huniq]. split; simpl.
  - apply Forall_fmap. eapply Forall_impl; [exact Htwo|].
    intros c Hc. simpl. by destruct (bool_decide _).
  - intros a b Hab. rewrite filter_samePair_touch; [by apply Huniq|].
    intros c. by destruct (bool_decide _).
Qed.

Lemma PairUnique_send_step st r : PairUnique st → PairUnique (send_step st r).
Proof.
  intros Hinv. unfold send_step, route_send, auth, incoming.
  destruct (sr_identity r) as [user|]; [|done].
  unfold post_send. cbn [req_user req_body].
  destruct (sr_body r !! "receiverId") as [receiverId|]; [|done].
  destruct (negb (isValid receiverId)); [done|].
  destruct (negb (Js.truthy _)); [done|].
  destruct (castId receiverId) as [receiverOid|]; [|done].
  destruct (User_findById st receiverOid) as [receiver|]; [|done].
  destruct (bool_decide (u_id receiver = au_id user)); [done|].
  destruct (_ && _); [done|].
  pose proof (PairUnique_findOneAndUpdate (at_upsert (sr_clock r)) st
                (au_id user) receiverOid Hinv) as Hinv1.
  destruct (Conversation_findOneAndUpdate _ st (au_id user) receiverOid) as [c st1].
  simpl in *. by apply PairUnique_save.
Qed.

Lemma PairUnique_send_all requests : ∀ st,
  PairUnique st → PairUnique (send_all st requests).
Proof.
  induction requests as [|r requests IH]; intros st Hinv; [done|].
  simpl. apply IH. by apply PairUnique_send_step.
Qed.

Lemma PairUnique_empty st : conversations st = [] → PairUnique st.
Proof.
  intros H. unfold PairUnique. rewrite H. split; [constructor|].
  intros. rewrite filter_nil. simpl. lia.
Qed.

Lemma find_ext_bool {A : Type} (p q : A → bool) (l : list A) :
  (∀ x, p x = q x) → List.find p l = List.find q l.
Proof.
  intros H. induction l as [|x l IH]; [done|].
  simpl. rewrite H, IH. done.
Qed.

(** C1.  From a store in which no pair has two conversations (an empty
    conversation collection, say), no sequence of send requests, accepted
    or rejected, in either direction, leaves two conversations with the
    same pair of participants; find-or-create on the pair then yields a
    conversation with exactly that pair, the only one in the store, and
    asking again with the pair reversed returns the same record and
    inserts nothing. *)
Theorem conversation_pair_unique st0 requests a b t1 t2 :
  PairUnique st0 → a ≠ b →
  let st := send_all st0 requests in
  let first := Conversation_findOneAndUpdate t1 st a b in
  let second := Conversation_findOneAndUpdate t2 first.2 b a in
  (length (filter (samePair a b) (conversations st)) ≤ 1)%nat
  ∧ samePair a b first.1
  ∧ length (filter (samePair a b) (conversations first.2)) = 1
  ∧ second = first.
Proof.
  intros Hinv Hab st first second.
  pose proof (PairUnique_send_all requests st0 Hinv) as Hst. fold st in Hst.
  pose proof (PairUnique_findOneAndUpdate t1 st a b Hst) as Hfirst. fold first in Hfirst.
  pose proof (Conversation_findOneAndUpdate_found t1 st a b) as (Hfound & _).
  fold first in Hfound.
  assert (samePair a b first.1) as Hpair.
  { apply find_some_true in Hfound as [_ Hp]. by apply pairFilter_samePair. }
  split; [by apply Hst|]. split; [done|]. split.
  - apply Nat.le_antisymm; [by apply Hfirst|].
    apply find_some_true in Hfound as [Hin _].
    assert (first.1 ∈ filter (samePair a b) (conversations first.2)) as Hmem
      by (by apply list_elem_of_filter).
    destruct (filter (samePair a b) (conversations first.2)); simpl; [|lia].
    by apply elem_of_nil in Hmem.
  - unfold second, Conversation_findOneAndUpdate at 1.
    rewrite (find_ext_bool _ (pairFilter a b)) by (intros; apply pairFilter_sym).
    rewrite Hfound. by destruct first.
Qed.

(** ** The realtime gateway *)

Lemma socketAuth_refusal st token err :
  socketAuth st token = inl err → err = "Authentication failed".
Proof.
  unfold socketAuth. intros H.
  destruct token as [[|a t]|]; [congruence | | congruence].
  destruct (jwtVerify _) as [decoded|]; [|congruence].
  destruct (_ ≫= _); congruence.
Qed.

Lemma gateway_step_closed st c ev : phase c = Closed → gateway_step st c ev = c.
Proof. unfold gateway_step. intros ->. by destruct ev. Qed.

Lemma gateway_run_closed c trace : phase c = Closed → gateway_run c trace = c.
Proof.
  revert c. induction trace as [|ev trace IH]; intros c Hc; [done|].
  simpl. rewrite gateway_step_closed by done. by apply IH.
Qed.

(** Room membership goes with authentication: an open connection has an
    identity and sits in that identity's room; any other connection is in no
    room at all. *)
Lemma gateway_step_rooms st c ev :
  ((phase c = Open ∧ ∃ u, data_user c = Some u ∧ au_id u ∈ rooms c)
   ∨ ((phase c = Connecting ∨ phase c = Closed) ∧ rooms c = ∅)) →
  let c' := gateway_step st c ev in
  (phase c' = Open ∧ ∃ u, data_user c' = Some u ∧ au_id u ∈ rooms c')
  ∨ ((phase c' = Connecting ∨ phase c' = Closed) ∧ rooms c' = ∅).
Proof.
  intros [(Hp & u & Hu & Hin) | ([Hp|Hp] & Hr)]; simpl; unfold gateway_step; rewrite Hp.
  - destruct ev as [token|conversationId|]; [left; eauto | | right; auto].
    destruct (negb (isValid conversationId)); left; simpl; (split; [done|]);
      exists u; (split; [done|]); [done | by apply elem_of_union_r].
  - destruct ev as [token|conversationId|]; [| right; auto | right; auto].
    destruct (socketAuth st token) as [err|user]; [right; auto|].
    left. simpl. split; [done|]. exists user. split; [done|].
    by apply elem_of_union_l, elem_of_singleton.
  - right. destruct ev; auto.
Qed.

(** What it takes for a handshake to get through. *)
Lemma socketAuth_resolves st token user :
  socketAuth st token = inr user
  ↔ ∃ t decoded id oid u,
      token = Some t ∧ t ≠ "" ∧ jwtVerify t = Some decoded
      ∧ decoded !! "_id" = Some id ∧ castId id = Some oid
      ∧ User_findById st oid = Some u
      ∧ user = mkAuthUser (u_id u) (u_email u) (u_role u).
Proof.
  unfold socketAuth. split.
  - destruct token as [[|a t]|]; [done| |done].
    destruct (jwtVerify _) as [decoded|] eqn:Hverify; [|done].
    destruct (decoded !! "_id") as [id|] eqn:Hid; [|done]. simpl.
    destruct (castId id) as [oid|] eqn:Hcast; [|done]. simpl.
    destruct (User_findById st oid) as [u|] eqn:Hfind; [|done].
    intros [= <-]. by exists (String a t), decoded, id, oid, u.
  - intros (t & decoded & id & oid & u & -> & Ht & Hverify & Hid & Hcast & Hfind & ->).
    destruct t as [|a t]; [done|]. rewrite Hverify, Hid. simpl.
    rewrite Hcast. simpl. by rewrite Hfind.
Qed.

(** C9.  Whatever events reach a connection, it is in a room only once it
    is authenticated, and then it is in the room of its own identity.  A
    handshake gets through exactly when it carries a token that is not
    empty and verifies, whose [_id] claim can be cast and is the id of a
    stored user: the connection is then open as that user, in the room
    named by the user's id and in no other room of the application, before
    any event of the client has been looked at.  Every other handshake (no
    token, an empty one, one that does not verify, claims without [_id],
    an [_id] that cannot be cast or that no user has) closes the connection
    with [Authentication failed]; it stays closed, without identity and
    without rooms, whatever follows. *)
Theorem gateway_lifecycle st token (trace later : list (Store * ClientEvent)) :
  let reached := gateway_run newConnection trace in
  let greeted := gateway_step st newConnection (Handshake token) in
  let resolves (u : UserDoc) :=
    ∃ t decoded id oid,
      token = Some t ∧ t ≠ "" ∧ jwtVerify t = Some decoded
      ∧ decoded !! "_id" = Some id ∧ castId id = Some oid
      ∧ User_findById st oid = Some u in
  ((phase reached = Open ∧ ∃ u, data_user reached = Some u ∧ au_id u ∈ rooms reached)
   ∨ ((phase reached = Connecting ∨ phase reached = Closed) ∧ rooms reached = ∅))
  ∧ (∀ u, resolves u →
          greeted = mkConnection Open (Some (mkAuthUser (u_id u) (u_email u) (u_role u)))
                                 {[ u_id u ]} None [])
  ∧ ((∀ u, ¬ resolves u) →
     gateway_run greeted later
     = mkConnection Closed None ∅ (Some "Authentication failed") [])
  ∧ ((token = None ∨ token = Some ""
      ∨ (∃ t, token = Some t ∧ jwtVerify t = None)
      ∨ (∃ t decoded, token = Some t ∧ jwtVerify t = Some decoded
                      ∧ (decoded !! "_id" ≫= castId) ≫= User_findById st = None)) →
     gateway_run greeted later
     = mkConnection Closed None ∅ (Some "Authentication failed") []).
Proof.
  simpl.
  assert ((∀ u, ¬ ∃ t decoded id oid,
                    token = Some t ∧ t ≠ "" ∧ jwtVerify t = Some decoded
                    ∧ decoded !! "_id" = Some id ∧ castId id = Some oid
                    ∧ User_findById st oid = Some u) →
          gateway_run (gateway_step st newConnection (Handshake token)) later
          = mkConnection Closed None ∅ (Some "Authentication failed") []) as Hrefused.
  { intros Hnone. unfold gateway_step. simpl.
    destruct (socketAuth st token) as [err|user] eqn:Hauth.
    + rewrite gateway_run_closed by done.
      by rewrite (socketAuth_refusal _ _ _ Hauth).
    + apply socketAuth_resolves in Hauth
        as (t & decoded & id & oid & u & Ht & Hne & Hverify & Hid & Hcast & Hfind & _).
      destruct (Hnone u). by exists t, decoded, id, oid. }
  split; [|split; [|split]].
  - assert (∀ c,
      ((phase c = Open ∧ ∃ u, data_user c = Some u ∧ au_id u ∈ rooms c)
       ∨ ((phase c = Connecting ∨ phase c = Closed) ∧ rooms c = ∅)) →
      (phase (gateway_run c trace) = Open
       ∧ ∃ u, data_user (gateway_run c trace) = Some u
              ∧ au_id u ∈ rooms (gateway_run c trace))
      ∨ ((phase (gateway_run c trace) = Connecting
          ∨ phase (gateway_run c trace) = Closed)
         ∧ rooms (gateway_run c trace) = ∅)) as Hrun.
    { induction trace as [|ev trace IH]; intros c Hc; [done|].
      simpl. apply IH. by apply gateway_step_rooms. }
    apply Hrun. right. auto.
  - intros u (t & decoded & id & oid & Ht & Hne & Hverify & Hid & Hcast & Hfind).
    assert (socketAuth st token = inr (mkAuthUser (u_id u) (u_email u) (u_role u)))
      as Hauth.
    { apply socketAuth_resolves. by exists t, decoded, id, oid, u. }
    unfold gateway_step. simpl. rewrite Hauth.
    unfold onConnection. simpl. f_equal. apply (right_id_L ∅ (∪)).
  - exact Hrefused.
  - intros Hcause. apply Hrefused.
    intros u (t & decoded & id & oid & Ht & Hne & Hverify & Hid & Hcast & Hfind).
    destruct Hcause as [Hc | [Hc | [(t' & Hc & Hv) | (t' & d' & Hc & Hv & Hnone)]]];
      simplify_eq.
    rewrite Hid in Hnone. simpl in Hnone. rewrite Hcast in Hnone. simpl in Hnone.
    congruence.
Qed.

(** ** What a send leaves behind *)

(** The upsert only ever appends to the conversations. *)
Lemma Conversation_findOneAndUpdate_extends t st a b :
  ∃ added,
    conversations (Conversation_findOneAndUpdate t st a b).2
    = (conversations st ++ added)%list
    ∧ messages (Conversation_findOneAndUpdate t st a b).2 = messages st
    ∧ users (Conversation_findOneAndUpdate t st a b).2 = users st.
Proof.
  unfold Conversation_findOneAndUpdate.
  destruct (List.find (pairFilter a b) (conversations st)) as [c|]; simpl.
  - exists []. by rewrite app_nil_r.
  - by eexists.
Qed.

(** X1.  A send that passes every check is answered 201 with the new
    message: unread, its content trimmed, from the caller to the receiver
    (the receiver id in canonical form, however the request spelled it),
    stamped with the save time.  Exactly one [newMessage] is emitted, to the
    room named by the receiver id as the request spelled it, carrying that
    same message.  The store gains that one message, loses no user, and
    holds a conversation of exactly the two, touched at the time of the
    send. *)
Theorem send_accepted_outcome
    clock st caller body receiverId receiverOid content receiver :
  body !! "receiverId" = Some receiverId →
  body !! "content" = Some content →
  castId receiverId = Some receiverOid →
  Js.trim content ≠ "" →
  User_findById st receiverOid = Some receiver →
  receiverOid ≠ au_id caller →
  (au_role caller = "business" → u_role receiver = "user") →
  ∃ id c,
    let message := mkMessage id (c_id c) (au_id caller) receiverOid (Js.trim content)
                             false (at_save clock) in
    let populated := mkPopulated message (User_findById st (au_id caller)) in
    let o := route_send clock st (Some caller) body in
    response o = mkResponse 201 (JMessage populated)
    ∧ emitted o = [mkEmit receiverId "newMessage" (NewMessage (c_id c) populated)]
    ∧ messages (store o) = (messages st ++ [message])%list
    ∧ users (store o) = users st
    ∧ c ∈ conversations (store o)
    ∧ samePair (au_id caller) receiverOid c
    ∧ c_lastActive c = at_touch clock.
Proof.
  intros Hr Hc Hcast Hcontent Hfind Hself Hrole.
  unfold route_send, auth, incoming, post_send. cbn [req_user req_body].
  rewrite Hr, Hc, (isValid_cast _ _ Hcast), Hcast.
  apply truthy_trim_some in Hcontent. rewrite Hcontent.
  cbn [negb]. rewrite Hfind, (User_findById_id _ _ _ Hfind).
  rewrite bool_decide_eq_false_2 by done.
  assert (bool_decide (au_role caller = "business")
          && negb (bool_decide (u_role receiver = "user")) = false) as ->.
  { destruct (decide (au_role caller = "business")) as [Hb|Hb].
    - rewrite (bool_decide_eq_true_2 (u_role receiver = "user")) by auto.
      by rewrite andb_false_r.
    - by rewrite bool_decide_eq_false_2. }
  pose proof (Conversation_findOneAndUpdate_found (at_upsert clock) st
                (au_id caller) receiverOid) as (Hfound & Hu & Hm & _).
  destruct (Conversation_findOneAndUpdate (at_upsert clock) st (au_id caller) receiverOid)
    as [c st1]. simpl in Hfound, Hu, Hm.
  exists (newId "messages" (m_id <$> messages st1)), (touch (at_touch clock) c).
  cbn [default c_id touch response emitted store].
  assert (∀ m, User_findById
                 (Conversation_save (c_id c) (at_touch clock) (Message_save m st1))
                 (au_id caller)
               = User_findById st (au_id caller)) as Hsender.
  { intros m. unfold User_findById. simpl. by rewrite Hu. }
  rewrite !Hsender. unfold id.
  split; [done|]. split; [done|]. split; [by simpl; rewrite Hm|].
  split; [done|].
  pose proof (find_some_true _ _ _ Hfound) as [Hin Hp].
  split; [|split; [|done]].
  - simpl. apply list_elem_of_fmap. exists c. split; [|done].
    by rewrite bool_decide_eq_true_2.
  - apply (pairFilter_samePair _ _ c); [congruence | done].
Qed.

(** X2.  Who may message whom.  Once the input checks are passed (a
    receiver id that can be cast and is the id of somebody else, content
    that is not blank), the send is accepted unless the caller's role is
    [business] and the receiver's role is anything but [user]; that one
    case is answered 403 and writes nothing.  A caller of any other role,
    an admin included, may write to anybody, and anybody may write to an
    admin except a business. *)
Theorem send_role_rule clock st caller body receiverId receiverOid content receiver :
  body !! "receiverId" = Some receiverId →
  body !! "content" = Some content →
  castId receiverId = Some receiverOid →
  Js.trim content ≠ "" →
  User_findById st receiverOid = Some receiver →
  receiverOid ≠ au_id caller →
  let o := route_send clock st (Some caller) body in
  (status (response o) = 201
   ↔ au_role caller ≠ "business" ∨ u_role receiver = "user")
  ∧ (status (response o) = 403
     ↔ au_role caller = "business" ∧ u_role receiver ≠ "user")
  ∧ (status (response o) = 403 → store o = st ∧ emitted o = []).
Proof.
  intros Hr Hc Hcast Hcontent Hfind Hself.
  unfold route_send, auth, incoming, post_send. cbn [req_user req_body].
  rewrite Hr, Hc, (isValid_cast _ _ Hcast), Hcast.
  apply truthy_trim_some in Hcontent. rewrite Hcontent.
  cbn [negb]. rewrite Hfind, (User_findById_id _ _ _ Hfind).
  rewrite bool_decide_eq_false_2 by done.
  destruct (decide (au_role caller = "business")) as [Hb|Hb];
    destruct (decide (u_role receiver = "user")) as [Hu|Hu];
    rewrite ?(bool_decide_eq_true_2 _ Hb), ?(bool_decide_eq_false_2 _ Hb),
            ?(bool_decide_eq_true_2 _ Hu), ?(bool_decide_eq_false_2 _ Hu);
    cbn [negb andb];
    try destruct (Conversation_findOneAndUpdate _ _ _ _) as [c st1];
    cbn [response status store emitted reply];
    (split; [split; [try discriminate; auto | try (intros [?|?]; done); auto]|]);
    (split; [split; [try discriminate; auto | try (intros [? ?]; done); auto]|]);
    try discriminate; auto.
Qed.

(** ** Nothing is deleted or rewritten *)

Lemma sameButRead_refl m : sameButRead m m.
Proof. by repeat split. Qed.

Lemma sameButRead_trans m1 m2 m3 :
  sameButRead m1 m2 → sameButRead m2 m3 → sameButRead m1 m3.
Proof.
  intros (?&?&?&?&?&?&?) (?&?&?&?&?&?&?).
  repeat split; try congruence. auto.
Qed.

Lemma sameButActivity_touchIf id t c :
  sameButActivity c (if bool_decide (c_id c = id) then touch t c else c).
Proof. by destruct (bool_decide _). Qed.

(** What one write does to the collections. *)
Lemma write_step_kept st w :
  users (write_step st w) = users st
  ∧ (∀ i m, messages st !! i = Some m →
            ∃ m', messages (write_step st w) !! i = Some m' ∧ sameButRead m m')
  ∧ (∀ i c, conversations st !! i = Some c →
            ∃ c', conversations (write_step st w) !! i = Some c' ∧ sameButActivity c c').
Proof.
  assert (users st = users st
          ∧ (∀ i m, messages st !! i = Some m →
                    ∃ m', messages st !! i = Some m' ∧ sameButRead m m')
          ∧ (∀ i c, conversations st !! i = Some c →
                    ∃ c', conversations st !! i = Some c' ∧ sameButActivity c c'))
    as Hsame.
  { split; [done|]. split; intros i x Hx; exists x; split;
      done || apply sameButRead_refl. }
  destruct w as [clock req|conversationId req]; simpl.
  - unfold post_send.
    destruct (req_user req) as [user|]; [|exact Hsame].
    destruct (req_body req !! "receiverId") as [receiverId|]; [|exact Hsame].
    destruct (negb (isValid receiverId)); [exact Hsame|].
    destruct (negb (Js.truthy _)); [exact Hsame|].
    destruct (castId receiverId) as [receiverOid|]; [|exact Hsame].
    destruct (User_findById st receiverOid) as [receiver|]; [|exact Hsame].
    destruct (bool_decide (u_id receiver = au_id user)); [exact Hsame|].
    destruct (_ && _); [exact Hsame|].
    pose proof (Conversation_findOneAndUpdate_extends (at_upsert clock) st
                  (au_id user) receiverOid) as (added & Hc & Hm & Hu).
    destruct (Conversation_findOneAndUpdate (at_upsert clock) st (au_id user) receiverOid)
      as [c st1].
    simpl in Hc, Hm, Hu. simpl. rewrite Hc, Hm.
    split; [done|]. split.
    + intros i m Hi. exists m. split; [|apply sameButRead_refl].
      by apply lookup_app_l_Some.
    + intros i c0 Hi. eexists. rewrite list_lookup_fmap.
      rewrite (lookup_app_l_Some _ _ _ _ Hi). simpl. split; [reflexivity|].
      apply sameButActivity_touchIf.
  - unfold patch_read.
    destruct (req_user req) as [user|]; [|exact Hsame].
    destruct (castId conversationId) as [conversationOid|]; [|exact Hsame].
    simpl. split; [done|]. split; [|by destruct Hsame as (_ & _ & ?)].
    intros i m Hi. eexists. rewrite list_lookup_fmap, Hi. simpl.
    split; [reflexivity|]. rewrite markOne_read. repeat split.
    simpl. by intros ->.
Qed.

(** X3.  Whatever sequence of send and read handlers runs, on whatever
    requests, no user, message or conversation is removed or moved: each
    message keeps its id, conversation, sender, receiver, content and
    creation time, and once read stays read; each conversation keeps its id
    and its participants. *)
Theorem history_kept (ws : list Write) (st : Store) :
  users (write_all st ws) = users st
  ∧ (∀ i m, messages st !! i = Some m →
            ∃ m', messages (write_all st ws) !! i = Some m' ∧ sameButRead m m')
  ∧ (∀ i c, conversations st !! i = Some c →
            ∃ c', conversations (write_all st ws) !! i = Some c'
                  ∧ sameButActivity c c').
Proof.
  revert st. induction ws as [|w ws IH]; intros st.
  - split; [done|]. split; intros i x Hx; exists x; split;
      done || apply sameButRead_refl.
  - simpl. destruct (IH (write_step st w)) as (Hu & Hm & Hc).
    destruct (write_step_kept st w) as (Hu1 & Hm1 & Hc1).
    split; [congruence|]. split.
    + intros i m Hi. destruct (Hm1 i m Hi) as (m1 & Hi1 & H1).
      destruct (Hm i m1 Hi1) as (m2 & Hi2 & H2).
      exists m2. split; [done|]. by eapply sameButRead_trans.
    + intros i c Hi. destruct (Hc1 i c Hi) as (c1 & Hi1 & [H1 H1']).
      destruct (Hc i c1 Hi1) as (c2 & Hi2 & [H2 H2']).
      exists c2. split; [done|]. split; congruence.
Qed.

(** ** Messages and their conversations *)

Lemma addressed_kept (convs convs' : list ConversationDoc) (l l' : list MessageDoc) :
  (∀ c, c ∈ convs → ∃ c', c' ∈ convs' ∧ sameButActivity c c') →
  Forall2 sameButRead l l' →
  Forall (λ m, m_sender m ≠ m_receiver m
               ∧ ∃ c, c ∈ convs ∧ c_id c = m_conversation m
                      ∧ samePair (m_sender m) (m_receiver m) c) l →
  Forall (λ m, m_sender m ≠ m_receiver m
               ∧ ∃ c, c ∈ convs' ∧ c_id c = m_conversation m
                      ∧ samePair (m_sender m) (m_receiver m) c) l'.
Proof.
  intros Hconv Hmsg Hwell.
  induction Hmsg as [|m m' l l' Hm _ IH]; [constructor|].
  apply Forall_cons in Hwell as [(Hne & c & Hin & Hid & Hpair) Hwell].
  destruct Hm as (_ & Hmc & Hms & Hmr & _).
  constructor; [|by apply IH].
  rewrite Hms, Hmr, Hmc. split; [done|].
  destruct (Hconv c Hin) as (c' & Hin' & Hid' & Hparts).
  exists c'. split; [done|]. split; [congruence|].
  unfold samePair in *. by rewrite Hparts.
Qed.

Lemma Conversation_findOneAndUpdate_keeps t st a b c :
  c ∈ conversations st → c ∈ conversations (Conversation_findOneAndUpdate t st a b).2.
Proof.
  unfold Conversation_findOneAndUpdate.
  destruct (List.find _ _); simpl; [done|].
  intros Hin. apply elem_of_app. by left.
Qed.

Lemma Forall2_sameButRead_refl (l : list MessageDoc) : Forall2 sameButRead l l.
Proof.
  apply Forall_Forall2_diag, Forall_forall. intros m _. apply sameButRead_refl.
Qed.

Lemma write_step_WellAddressed st w :
  WellAddressed st → WellAddressed (write_step st w).
Proof.
  intros Hwell. destruct w as [clock req|conversationId req]; simpl.
  - unfold post_send.
    destruct (req_user req) as [user|]; [|exact Hwell].
    destruct (req_body req !! "receiverId") as [receiverId|]; [|exact Hwell].
    destruct (negb (isValid receiverId)); [exact Hwell|].
    destruct (negb (Js.truthy _)); [exact Hwell|].
    destruct (castId receiverId) as [receiverOid|]; [|exact Hwell].
    destruct (User_findById st receiverOid) as [receiver|] eqn:Hfind; [|exact Hwell].
    destruct (bool_decide (u_id receiver = au_id user)) eqn:Hself; [exact Hwell|].
    destruct (_ && _); [exact Hwell|].
    apply bool_decide_eq_false in Hself.
    rewrite (User_findById_id _ _ _ Hfind) in Hself.
    pose proof (Conversation_findOneAndUpdate_found (at_upsert clock) st
                  (au_id user) receiverOid) as (Hfound & _ & Hm & _).
    pose proof (λ c0, Conversation_findOneAndUpdate_keeps (at_upsert clock) st
                        (au_id user) receiverOid c0) as Hsub.
    destruct (Conversation_findOneAndUpdate (at_upsert clock) st (au_id user) receiverOid)
      as [c st1].
    cbn [store]. simpl in Hfound, Hm, Hsub.
    assert (∀ m c0, c0 ∈ conversations st1 →
              ∃ c', c' ∈ conversations
                           (Conversation_save (c_id c) (at_touch clock) (Message_save m st1))
                    ∧ sameButActivity c0 c') as Hkeep.
    { intros m c0 Hin. eexists.
      split; [|apply (sameButActivity_touchIf (c_id c) (at_touch clock))].
      simpl. apply list_elem_of_fmap. by exists c0. }
    unfold WellAddressed. cbn [messages Conversation_save Message_save].
    rewrite Hm. apply Forall_app. split.
    + eapply (addressed_kept (conversations st)); [|apply Forall2_sameButRead_refl|exact Hwell].
      intros c0 Hin. destruct (Hkeep (mkMessage "" "" "" "" "" false 0) c0 (Hsub c0 Hin))
        as (c' & Hin' & Hsame).
      exists c'. by split.
    + repeat constructor; simpl; [congruence|].
      apply find_some_true in Hfound as [Hin Hp].
      destruct (Hkeep (mkMessage "" "" "" "" "" false 0) c Hin) as (c' & Hin' & Hid & Hparts).
      exists c'. split; [done|]. split; [done|].
      unfold samePair. rewrite Hparts.
      apply (pairFilter_samePair _ _ c); [congruence | done].
  - unfold patch_read.
    destruct (req_user req) as [user|]; [|exact Hwell].
    destruct (castId conversationId) as [conversationOid|]; [|exact Hwell].
    unfold WellAddressed. simpl.
    eapply (addressed_kept (conversations st)); [| |exact Hwell].
    + intros c Hin. exists c. by split.
    + apply Forall2_fmap_r, Forall_Forall2_diag, Forall_forall.
      intros m _. simpl. rewrite markOne_read. repeat split. simpl. by intros ->.
Qed.

(** X4.  Messages are always addressed within their conversation.  From a
    store where it holds (one with no messages, say), after any sequence of
    send and read handlers every message has a sender and a receiver that
    differ and that are exactly the two participants of a conversation in
    the store carrying the message's conversation id. *)
Theorem messages_well_addressed (ws : list Write) (st : Store) :
  WellAddressed st → WellAddressed (write_all st ws).
Proof.
  revert st. induction ws as [|w ws IH]; intros st Hwell; [done|].
  simpl. apply IH. by apply write_step_WellAddressed.
Qed.

(** ** An accepted send, spelled out *)

Lemma route_send_accepted_eq
    clock st caller body receiverId receiverOid content receiver :
  body !! "receiverId" = Some receiverId →
  body !! "content" = Some content →
  castId receiverId = Some receiverOid →
  Js.trim content ≠ "" →
  User_findById st receiverOid = Some receiver →
  receiverOid ≠ au_id caller →
  (au_role caller = "business" → u_role receiver = "user") →
  route_send clock st (Some caller) body
  = let cs := Conversation_findOneAndUpdate (at_upsert clock) st (au_id caller)
                                            receiverOid in
    let message := mkMessage (newId "messages" (m_id <$> messages cs.2)) (c_id cs.1)
                             (au_id caller) receiverOid (Js.trim content)
                             false (at_save clock) in
    let st3 := Conversation_save (c_id cs.1) (at_touch clock) (Message_save message cs.2) in
    let populated := mkPopulated message (User_findById st3 (au_id caller)) in
    mkOutcome (mkResponse 201 (JMessage populated)) st3
      [mkEmit receiverId "newMessage" (NewMessage (c_id cs.1) populated)].
Proof.
  intros Hr Hc Hcast Hcontent Hfind Hself Hrole.
  unfold route_send, auth, incoming, post_send. cbn [req_user req_body].
  rewrite Hr, Hc, (isValid_cast _ _ Hcast), Hcast.
  apply truthy_trim_some in Hcontent. rewrite Hcontent.
  cbn [negb]. rewrite Hfind, (User_findById_id _ _ _ Hfind).
  rewrite bool_decide_eq_false_2 by done.
  assert (bool_decide (au_role caller = "business")
          && negb (bool_decide (u_role receiver = "user")) = false) as ->.
  { destruct (decide (au_role caller = "business")) as [Hb|Hb].
    - rewrite (bool_decide_eq_true_2 (u_role receiver = "user")) by auto.
      by rewrite andb_false_r.
    - by rewrite bool_decide_eq_false_2. }
  by destruct (Conversation_findOneAndUpdate _ _ _ _).
Qed.

(** ** Rooms and who listens *)

(** What every step of a connection keeps: rooms only while open; each room
    the id of the connection's identity or a well-formed id; nothing emitted
    to the connection but the answer to a malformed join. *)
Lemma gateway_step_checked st c ev :
  let kept c :=
    (phase c ≠ Open → rooms c = ∅)
    ∧ (∀ r, r ∈ rooms c → isValid r = true ∨ ∃ u, data_user c = Some u ∧ r = au_id u)
    ∧ Forall (λ e, e = ("error", "Invalid conversation ID")) (outbox c) in
  kept c → kept (gateway_step st c ev).
Proof.
  intros kept (Hclosed & Hrooms & Hout). unfold kept, gateway_step.
  destruct (phase c) eqn:Hp, ev as [token|conversationId|]; simpl;
    rewrite ?Hp; try done.
  - destruct (socketAuth st token) as [err|user]; simpl.
    + split; [done|]. split; [|done]. intros r Hr. by apply elem_of_empty in Hr.
    + split; [done|]. split; [|done]. intros r Hr. rewrite Hclosed in Hr by done.
      apply elem_of_union in Hr as [Hr|Hr]; [|by apply elem_of_empty in Hr].
      apply elem_of_singleton in Hr as ->. right. by exists user.
  - destruct (isValid conversationId) eqn:Hvalid; simpl.
    + split; [done|]. split; [|done]. intros r Hr.
      apply elem_of_union in Hr as [Hr|Hr]; [|by apply Hrooms].
      apply elem_of_singleton in Hr as ->. by left.
    + split; [done|]. split; [done|]. apply Forall_app. split; [done|].
      by apply Forall_singleton.
Qed.

(** X7.  Whatever events reach a connection of the gateway, every room it
    is in is named either by the id of its own identity or by a well-formed
    object id that it asked to join: a malformed id never becomes a room.
    All that the gateway itself ever emits to a connection is the event
    [error] with [Invalid conversation ID]. *)
Theorem gateway_rooms_checked (trace : list (Store * ClientEvent)) :
  let reached := gateway_run newConnection trace in
  (∀ r, r ∈ rooms reached →
        isValid r = true ∨ ∃ u, data_user reached = Some u ∧ r = au_id u)
  ∧ Forall (λ e, e = ("error", "Invalid conversation ID")) (outbox reached).
Proof.
  simpl.
  assert (∀ c,
    ((phase c ≠ Open → rooms c = ∅)
     ∧ (∀ r, r ∈ rooms c → isValid r = true ∨ ∃ u, data_user c = Some u ∧ r = au_id u)
     ∧ Forall (λ e, e = ("error", "Invalid conversation ID")) (outbox c)) →
    (∀ r, r ∈ rooms (gateway_run c trace) →
          isValid r = true ∨ ∃ u, data_user (gateway_run c trace) = Some u ∧ r = au_id u)
    ∧ Forall (λ e, e = ("error", "Invalid conversation ID"))
             (outbox (gateway_run c trace))) as Hrun.
  { induction trace as [|ev trace IH]; intros c Hc; [by destruct Hc as (_ & ? & ?)|].
    simpl. apply IH. by apply (gateway_step_checked ev.1 c ev.2). }
  apply Hrun. split; [done|]. split; [|done].
  intros r Hr. by apply elem_of_empty in Hr.
Qed.

(** X8.  Joining a room is not checked against the conversations.  Any
    open connection, whoever it belongs to, that asks to join a room with a
    well-formed name is put into it.  An accepted send emits its one
    [newMessage] to the room named by the receiver id as the request
    spelled it; so the connection hears the send exactly when that spelling
    names the room it joined or a room it was in before.  A connection that
    joined the room named by a user's id thus hears every accepted send
    that spells that user's id the same way. *)
Theorem join_hears_sends_to_others
    clock st caller body receiverId receiverOid content receiver
    (st0 : Store) (trace : list (Store * ClientEvent)) (room : string) :
  body !! "receiverId" = Some receiverId →
  body !! "content" = Some content →
  castId receiverId = Some receiverOid →
  Js.trim content ≠ "" →
  User_findById st receiverOid = Some receiver →
  receiverOid ≠ au_id caller →
  (au_role caller = "business" → u_role receiver = "user") →
  phase (gateway_run newConnection trace) = Open →
  isValid room = true →
  let reached := gateway_run newConnection trace in
  let listener := gateway_step st0 reached (JoinConversation room) in
  let sent := emitted (route_send clock st (Some caller) body) in
  data_user listener = data_user reached
  ∧ (∃ e, sent = [e] ∧ emit_event e = "newMessage" ∧ emit_room e = receiverId)
  ∧ (Forall (hears listener) sent ↔ receiverId = room ∨ receiverId ∈ rooms reached).
Proof.
  intros Hr Hc Hcast Hcontent Hfind Hself Hrole Hopen Hroom. simpl.
  rewrite (route_send_accepted_eq clock st caller body receiverId receiverOid content
             receiver) by done.
  unfold gateway_step. rewrite Hopen, Hroom. simpl.
  split; [done|]. split; [eauto|].
  rewrite Forall_singleton. unfold hears. simpl.
  rewrite elem_of_union, elem_of_singleton.
  split; [by intros [_ ?] | intros H; split; [done | exact H]].
Qed.

(** ** Contents as stored *)







(** ** Tokens: issued, presented, revoked *)

Lemma removeFirst_eq pattern s :
  removeFirst pattern s
  = if String.prefix pattern s then skip (String.length pattern) s
    else match s with
         | EmptyString => EmptyString
         | String c rest => String c (removeFirst pattern rest)
         end.
Proof. by destruct s. Qed.

Lemma prefix_append pattern s : String.prefix pattern (pattern ++ s) = true.
Proof.
  induction pattern as [|a pattern IH]; [by destruct s|].
  change (String a pattern ++ s)%string with (String a (pattern ++ s)).
  simpl. by destruct (ascii_dec a a).
Qed.

Lemma skip_append pattern s : skip (String.length pattern) (pattern ++ s) = s.
Proof.
  induction pattern as [|a pattern IH]; [by destruct s|].
  change (String a pattern ++ s)%string with (String a (pattern ++ s)).
  simpl. exact IH.
Qed.

Lemma bearerToken_prefixed token : bearerToken (Some ("Bearer " ++ token)%string) = Some token.
Proof.
  unfold bearerToken.
  change (Some (removeFirst "Bearer " ("Bearer " ++ token)%string) = Some token).
  f_equal. rewrite removeFirst_eq, prefix_append. apply (skip_append "Bearer ").
Qed.

(** A text that starts with the pattern holds every character of it. *)
Lemma prefix_allChars (p : ascii → bool) pattern s :
  String.prefix pattern s = true → allChars p s = true → allChars p pattern = true.
Proof.
  revert s. induction pattern as [|a pattern IH]; intros [|b s]; simpl; try done.
  destruct (ascii_dec a b) as [->|]; [|done].
  intros Hprefix [Hb Hs]%andb_true_iff. rewrite Hb. simpl. by apply (IH s).
Qed.

Lemma bearerToken_bare token : noSpace token → bearerToken (Some token) = Some token.
Proof.
  unfold bearerToken, noSpace. simpl. intros Htoken. f_equal.
  induction token as [|c token IH]; [done|].
  rewrite removeFirst_eq.
  destruct (String.prefix "Bearer " (String c token)) eqn:Hprefix.
  - by pose proof (prefix_allChars _ _ _ Hprefix Htoken).
  - simpl in Htoken. apply andb_true_iff in Htoken as [_ Htoken].
    by rewrite IH.
Qed.

(** X10.  The middleware takes the token with or without the scheme word: for a
    token without spaces, the header [Bearer <token>] and the header
    [<token>] alone resolve to the same identity, or are both refused. *)
Theorem bearer_prefix_optional (accounts : list Account) (token : string) :
  noSpace token →
  authenticate accounts (Some ("Bearer " ++ token)%string)
  = authenticate accounts (Some token).
Proof.
  intros Htoken. unfold authenticate.
  by rewrite bearerToken_prefixed, bearerToken_bare.
Qed.

Lemma find_some_exists {A : Type} (p : A → bool) (l : list A) (x : A) :
  x ∈ l → p x = true → ∃ y, List.find p l = Some y.
Proof.
  intros Hin Hp. destruct (List.find p l) as [y|] eqn:Hfind; [by exists y|].
  rewrite (find_none_false _ _ _ Hfind Hin) in Hp. done.
Qed.

(** After a save the collection holds the saved document wherever its id
    stands, and only there. *)
Lemma Account_save_elem this accounts a :
  a ∈ Account_save this accounts →
  (u_id (a_user a) = u_id (a_user this) → a = this)
  ∧ (u_id (a_user a) ≠ u_id (a_user this) → a ∈ accounts).
Proof.
  unfold Account_save. intros (x & -> & Hx)%list_elem_of_fmap.
  destruct (bool_decide _) eqn:Hid; [done|].
  apply bool_decide_eq_false in Hid. done.
Qed.

Lemma Account_save_saved this this' accounts :
  this ∈ accounts → u_id (a_user this') = u_id (a_user this) →
  this' ∈ Account_save this' accounts.
Proof.
  intros Hin Hid. unfold Account_save. apply list_elem_of_fmap. exists this.
  by rewrite bool_decide_eq_true_2.
Qed.

(** What the middleware resolves a presented token to, spelled out. *)
Lemma authenticate_eq accounts token decoded :
  token ≠ "" → jwtVerify token = Some decoded →
  authenticate accounts (Some ("Bearer " ++ token)%string)
  = identityOf <$> User_findOne_token accounts (decoded !! "id") token.
Proof.
  intros Htoken Hverify. unfold authenticate. rewrite bearerToken_prefixed.
  destruct token; [done|]. by rewrite Hverify.
Qed.

Lemma User_findOne_token_saved this accounts id token :
  (∃ a, a ∈ accounts ∧ u_id (a_user a) = u_id (a_user this)) →
  u_id (a_user this) = id →
  User_findOne_token (Account_save this accounts) (Some id) token
  = if bool_decide (token ∈ a_tokens this) then Some this else None.
Proof.
  intros (a & Hin & Ha) Hid. unfold User_findOne_token.
  destruct (bool_decide (token ∈ a_tokens this)) eqn:Htoken.
  - assert (this ∈ Account_save this accounts) as Hsaved.
    { unfold Account_save. apply list_elem_of_fmap. exists a.
      by rewrite bool_decide_eq_true_2. }
    destruct (find_some_exists
                (λ a, bool_decide (Some (u_id (a_user a)) = Some id)
                      && bool_decide (token ∈ a_tokens a))
                _ this Hsaved) as (y & Hy).
    { rewrite Htoken, bool_decide_eq_true_2; [done | by rewrite Hid]. }
    rewrite Hy. apply find_some_true in Hy as [Hyin Hyp].
    apply andb_true_iff in Hyp as [Hyid _]. apply bool_decide_eq_true in Hyid.
    f_equal. apply (Account_save_elem _ _ _ Hyin). congruence.
  - destruct (List.find _ _) as [y|] eqn:Hy; [|done].
    apply find_some_true in Hy as [Hyin Hyp].
    apply andb_true_iff in Hyp as [Hyid Hytoken]. apply bool_decide_eq_true in Hyid.
    assert (y = this) as -> by (apply (Account_save_elem _ _ _ Hyin); congruence).
    congruence.
Qed.

Lemma find_fmap_agree {A B : Type} (p : A → bool) (h : A → B) (f g : A → A)
    (l : list A) :
  (∀ x, p (f x) = p (g x)) → (∀ x, h (f x) = h (g x)) →
  h <$> List.find p (f <$> l) = h <$> List.find p (g <$> l).
Proof.
  intros Hp Hh. induction l as [|x l IH]; [done|].
  simpl. rewrite Hp. destruct (p (g x)); [simpl; by rewrite Hh | exact IH].
Qed.

(** X11.  A token lives from its issue to its revocation.  Once
    [generateAuthToken] has run for an account of the collection, the
    middleware resolves the issued token (provided it verifies with the id it was
    signed for) to that account's identity; once [revokeToken] has run on
    it, or [revokeAllTokens], the same token is refused; and revoking it
    changes nothing for any other token. *)
Theorem token_issued_until_revoked
    (accounts : list Account) (this : Account) (signedAt now : Z)
    (decoded : gmap string string) :
  let token := jwtSign (tokenPayload this) signedAt in
  let issued := generateAuthToken signedAt now this accounts in
  let revoked := revokeToken token issued.1.2 issued.2 in
  this ∈ accounts →
  token ≠ "" →
  jwtVerify token = Some decoded →
  decoded !! "id" = Some (u_id (a_user this)) →
  issued.1.1 = token
  ∧ authenticate issued.2 (Some ("Bearer " ++ token)%string) = Some (identityOf this)
  ∧ authenticate revoked.2 (Some ("Bearer " ++ token)%string) = None
  ∧ authenticate (revokeAllTokens issued.1.2 issued.2).2
                 (Some ("Bearer " ++ token)%string) = None
  ∧ ∀ other, other ≠ token →
      authenticate revoked.2 (Some ("Bearer " ++ other)%string)
      = authenticate issued.2 (Some ("Bearer " ++ other)%string).
Proof.
  intros token issued revoked Hin Htoken Hverify Hid.
  assert (∃ a, a ∈ accounts ∧ u_id (a_user a) = u_id (a_user this)) as Hstored
    by (by exists this).
  set (this1 := mkAccount (a_user this) (a_tokens this ++ [token])%list (a_isActive this)
                          (Some now)).
  assert (∃ a, a ∈ Account_save this1 accounts
               ∧ u_id (a_user a) = u_id (a_user this)) as Hstored1.
  { exists this1. split; [|done]. by apply (Account_save_saved this). }
  split; [done|]. split; [|split; [|split]].
  - rewrite (authenticate_eq _ _ decoded), Hid by done.
    unfold issued, generateAuthToken. cbn [fst snd]. fold token. fold this1.
    rewrite (User_findOne_token_saved this1) by done.
    rewrite bool_decide_eq_true_2; [done|].
    simpl. apply elem_of_app. right. by apply list_elem_of_singleton.
  - rewrite (authenticate_eq _ _ decoded), Hid by done.
    unfold revoked, revokeToken, issued, generateAuthToken. cbn [fst snd].
    fold token. fold this1.
    rewrite User_findOne_token_saved by done.
    rewrite bool_decide_eq_false_2; [done|].
    simpl. intros Hfiltered. by apply list_elem_of_filter in Hfiltered as [? _].
  - rewrite (authenticate_eq _ _ decoded), Hid by done.
    unfold revokeAllTokens, issued, generateAuthToken. cbn [fst snd].
    fold token. fold this1.
    rewrite User_findOne_token_saved by done.
    rewrite bool_decide_eq_false_2; [done|]. by apply not_elem_of_nil.
  - intros other Hother. unfold authenticate. rewrite !bearerToken_prefixed.
    destruct other as [|c other]; [done|].
    destruct (jwtVerify (String c other)) as [claims|]; [|done].
    unfold revoked, revokeToken, issued, generateAuthToken. cbn [fst snd].
    fold token. fold this1.
    unfold User_findOne_token, Account_save.
    rewrite <- list_fmap_compose.
    apply find_fmap_agree; intros x; simpl;
      destruct (bool_decide (u_id (a_user x) = u_id (a_user this))) eqn:Hx;
      simpl;
      rewrite ?(bool_decide_eq_true_2 (u_id (a_user this) = u_id (a_user this)) eq_refl),
              ?Hx; try done.
    simpl. f_equal. apply bool_decide_ext. rewrite list_elem_of_filter.
    split; [by intros [_ ?] | by intros ?].
Qed.

(** ** Accounts switched off, and logging out *)

Lemma NoDup_fmap_elem {A B : Type} (f : A → B) (l : list A) (x y : A) :
  NoDup (f <$> l) → x ∈ l → y ∈ l → f x = f y → x = y.
Proof.
  induction l as [|z l IH]; intros Hnd Hx Hy Hf; [by apply elem_of_nil in Hx|].
  rewrite fmap_cons in Hnd. apply NoDup_cons in Hnd as [Hz Hnd].
  apply elem_of_cons in Hx as [->|Hx]; apply elem_of_cons in Hy as [->|Hy].
  - done.
  - destruct Hz. rewrite Hf. apply list_elem_of_fmap. by exists y.
  - destruct Hz. rewrite <- Hf. apply list_elem_of_fmap. by exists x.
  - by apply IH.
Qed.

(** X12.  Switching an account off does not lock it out.  With ids unique
    in the collection, a token that an account holds and that verifies
    with the account's id is resolved by the middleware to that account's
    identity whether or not the account is active; [User.findByToken], on
    the same token, answers the account only if it is active. *)
Theorem inactive_account_still_authenticates
    (accounts : list Account) (a : Account) (token : string)
    (decoded : gmap string string) :
  NoDup ((λ x, u_id (a_user x)) <$> accounts) →
  a ∈ accounts →
  token ∈ a_tokens a →
  token ≠ "" →
  jwtVerify token = Some decoded →
  decoded !! "id" = Some (u_id (a_user a)) →
  authenticate accounts (Some ("Bearer " ++ token)%string) = Some (identityOf a)
  ∧ User_findByToken accounts token = if a_isActive a then Some a else None.
Proof.
  intros Hnd Hin Htoken Hne Hverify Hid.
  assert (∀ y, y ∈ accounts → Some (u_id (a_user y)) = decoded !! "id" → y = a) as Hsame.
  { intros y Hy Hyid. rewrite Hid in Hyid.
    apply (NoDup_fmap_elem (λ x, u_id (a_user x)) accounts); [done..|congruence]. }
  split.
  - rewrite (authenticate_eq _ _ decoded) by done. unfold User_findOne_token.
    destruct (find_some_exists
                (λ x, bool_decide (Some (u_id (a_user x)) = decoded !! "id")
                      && bool_decide (token ∈ a_tokens x)) accounts a Hin)
      as (y & Hy).
    { by rewrite !bool_decide_eq_true_2. }
    rewrite Hy. apply find_some_true in Hy as [Hyin Hyp].
    apply andb_true_iff in Hyp as [Hyid _]. apply bool_decide_eq_true in Hyid.
    by rewrite (Hsame y Hyin Hyid).
  - unfold User_findByToken. rewrite Hverify.
    destruct (a_isActive a) eqn:Hactive.
    + destruct (find_some_exists
                  (λ x, bool_decide (Some (u_id (a_user x)) = decoded !! "id")
                        && bool_decide (token ∈ a_tokens x) && a_isActive x)
                  accounts a Hin) as (y & Hy).
      { by rewrite !bool_decide_eq_true_2, Hactive. }
      rewrite Hy. apply find_some_true in Hy as [Hyin Hyp].
      apply andb_true_iff in Hyp as [Hyp _].
      apply andb_true_iff in Hyp as [Hyid _]. apply bool_decide_eq_true in Hyid.
      by rewrite (Hsame y Hyin Hyid).
    + destruct (List.find _ _) as [y|] eqn:Hy; [|done].
      apply find_some_true in Hy as [Hyin Hyp].
      apply andb_true_iff in Hyp as [Hyp Hyactive].
      apply andb_true_iff in Hyp as [Hyid _]. apply bool_decide_eq_true in Hyid.
      rewrite (Hsame y Hyin Hyid) in Hyactive. congruence.
Qed.

(** X13.  Logging out revokes nothing.  [POST /logout] answers 401 to a
    request that the middleware refuses and 400 to one that it lets through, never
    a success, and leaves every account as it was: the header that was
    presented resolves afterwards as it did before.  The handler itself,
    whatever [req.user] and [req.token] hold, never writes to the
    accounts. *)
Theorem logout_revokes_nothing (accounts : list Account) (authorization : option string) :
  let answer := route_logout accounts authorization in
  answer.1 = match authenticate accounts authorization with
             | Some _ => 400
             | None => 401
             end
  ∧ answer.2 = accounts
  ∧ authenticate answer.2 authorization = authenticate accounts authorization
  ∧ ∀ user token, (post_logout accounts user token).2 = accounts
                  ∧ (post_logout accounts user token).1.1 ≠ 200.
Proof.
  simpl. unfold route_logout, auth.
  destruct (authenticate accounts authorization) as [user|] eqn:Hauth; simpl.
  - split; [done|]. split; [done|]. split; [done|].
    intros u t. unfold post_logout. by destruct u, (Js.truthy t).
  - split; [done|]. split; [done|]. split; [done|].
    intros u t. unfold post_logout. by destruct u, (Js.truthy t).
Qed.

(** ** From the search to a send *)

(** The status of a send that passes the input checks. *)
Lemma route_send_status clock st caller body receiverId receiverOid content receiver :
  body !! "receiverId" = Some receiverId →
  body !! "content" = Some content →
  castId receiverId = Some receiverOid →
  Js.trim content ≠ "" →
  User_findById st receiverOid = Some receiver →
  receiverOid ≠ au_id caller →
  status (response (route_send clock st (Some caller) body))
  = if bool_decide (au_role caller = "business")
       && negb (bool_decide (u_role receiver = "user"))
    then 403 else 201.
Proof.
  intros Hr Hc Hcast Hcontent Hfind Hself.
  unfold route_send, auth, incoming, post_send. cbn [req_user req_body].
  rewrite Hr, Hc, (isValid_cast _ _ Hcast), Hcast.
  apply truthy_trim_some in Hcontent. rewrite Hcontent.
  cbn [negb]. rewrite Hfind, (User_findById_id _ _ _ Hfind).
  rewrite bool_decide_eq_false_2 by done.
  destruct (_ && _); [done|].
  by destruct (Conversation_findOneAndUpdate _ _ _ _).
Qed.

(** X14.  Whoever the search lists can be written to, as far as the input
    checks go.  When the users of the store are the documents searched and
    their ids are in canonical form (casting them gives them back), every
    user that [GET /search/users] returns to a caller resolves as a
    receiver other than the caller: a send to it of content that is not
    blank is never answered 400 or 404.  It is answered 201, or 403 when
    the caller is a business and the user found is not of role [user]: the
    search does not leave those out. *)
Theorem search_then_send
    clock st (profiles : list Profile) caller query (found : list Profile)
    (p : Profile) body content :
  users st = p_doc <$> profiles →
  Forall (λ u, castId (u_id u) = Some (u_id u)) (users st) →
  route_search_users profiles (Some caller) query = (200, SUsers found) →
  p ∈ found →
  body !! "receiverId" = Some (u_id (p_doc p)) →
  body !! "content" = Some content →
  Js.trim content ≠ "" →
  ∃ receiver,
    User_findById st (u_id (p_doc p)) = Some receiver
    ∧ status (response (route_send clock st (Some caller) body))
      = if bool_decide (au_role caller = "business")
           && negb (bool_decide (u_role receiver = "user"))
        then 403 else 201.
Proof.
  intros Husers Hids Hsearch Hp Hr Hc Hcontent.
  unfold route_search_users, auth, get_search_users in Hsearch.
  cbn [req_user] in Hsearch.
  destruct query as [[|q0 q]|]; [done| |done].
  destruct (_ <? _)%nat; [done|].
  destruct (regex _) as [test|]; [|done].
  injection Hsearch as <-.
  apply elem_of_take in Hp as (i & Hp & _). apply list_elem_of_lookup_2 in Hp.
  apply list_elem_of_In, filter_In in Hp as [Hin Hmatch].
  apply list_elem_of_In in Hin.
  unfold searchFilter in Hmatch. apply andb_true_iff in Hmatch as [_ Hother].
  apply negb_true_iff, bool_decide_eq_false in Hother.
  assert (p_doc p ∈ users st) as Hstored.
  { rewrite Husers. apply list_elem_of_fmap. by exists p. }
  destruct (find_some_exists (λ u, bool_decide (u_id u = u_id (p_doc p)))
              (users st) (p_doc p) Hstored) as (receiver & Hfind).
  { by apply bool_decide_eq_true. }
  exists receiver. split; [exact Hfind|].
  apply (route_send_status clock st caller body (u_id (p_doc p)) (u_id (p_doc p))
           content receiver); try done.
  rewrite Forall_forall in Hids. by apply Hids.
Qed.



(** ** The two per-conversation routes, for every caller *)

(** X16.  Nobody gets through to the messages of a conversation.  For every
    store, caller and conversation id, [GET /:conversationId/messages] and
    [PATCH /:conversationId/read] answer 401 without an identity and 404
    with one, participant or not; the store is left as it was and nothing
    is emitted.  The middleware in front of them passes no request at all,
    whatever its parameters. *)
Theorem conversation_routes_closed
    (st : Store) (identity : option AuthUser) (conversationId : string) :
  (∃ r, route_messages st identity conversationId = answered st r
        ∧ route_read st identity conversationId = answered st r
        ∧ status r = match identity with Some _ => 404 | None => 401 end)
  ∧ ∀ req req', messageAuthorization st req ≠ Next req'.
Proof.
  split.
  - destruct identity as [caller|].
    + eexists. unfold route_messages, route_read.
      rewrite !guarded_not_found. done.
    + eexists. unfold route_messages, route_read, guarded, auth. done.
  - intros req req'.
    destruct (messageAuthorization_never_passes st req) as [-> | ->]; discriminate.
Qed.

End Server.

(** ** The reference instances meet their contracts *)

Lemma insertBy_perm {A : Type} (before : Z → Z → bool) (key : A → Z) (x : A) (l : list A) :
  insertBy before key x l ≡ₚ x :: l.
Proof.
  induction l as [|y l IH]; [done|].
  simpl. destruct (before (key x) (key y)); [done|].
  rewrite IH. apply Permutation_swap.
Qed.

Lemma insertBy_sorted {A : Type} (before : Z → Z → bool) (key : A → Z) (x : A) (l : list A) :
  (∀ a b, before a b = true → (a ≤ b)%Z) →
  (∀ a b, before a b = false → (b ≤ a)%Z) →
  StronglySorted (λ x y, key x ≤ key y)%Z l →
  StronglySorted (λ x y, key x ≤ key y)%Z (insertBy before key x l).
Proof.
  intros Htrue Hfalse. induction 1 as [|y l Hs IH Hy].
  - repeat constructor.
  - simpl. destruct (before (key x) (key y)) eqn:Hb.
    + constructor; [by constructor|].
      apply Htrue in Hb. constructor; [done|].
      eapply Forall_impl; [exact Hy|]. simpl. intros; lia.
    + constructor; [done|].
      apply Hfalse in Hb.
      rewrite (insertBy_perm before key x l). by constructor.
Qed.

Lemma insertion_sort_stage (before : Z → Z → bool) :
  (∀ a b, before a b = true → (a ≤ b)%Z) →
  (∀ a b, before a b = false → (b ≤ a)%Z) →
  SortStage (λ A key l, foldr (insertBy before key) [] l).
Proof.
  intros Htrue Hfalse A key l. split.
  - induction l as [|x l IH]; [done|].
    simpl. by rewrite insertBy_perm, IH.
  - apply StronglySorted_Sorted.
    induction l as [|x l IH]; [constructor|].
    simpl. by apply insertBy_sorted.
Qed.

Lemma stableSort_stage : SortStage stableSort.
Proof. apply insertion_sort_stage; intros a b H; lia. Qed.

(** ** The handlers on sample data *)

Lemma helloChat_sent :
  store (route_send castHex countingId noon directory (Some (asCaller alice))
           (sendBody (u_id bob) "  Hello "))
  = helloChat.
Proof. vm_compute. reflexivity. Qed.

Lemma replyChat_sent :
  store (route_send castHex countingId later helloChat (Some (asCaller bob))
           (sendBody (u_id alice) "Hi"))
  = replyChat.
Proof. vm_compute. reflexivity. Qed.

Lemma adminChat_sent :
  store (route_send castHex countingId noon directory (Some (asCaller alice))
           (sendBody (u_id dave) "Hello"))
  = adminChat.
Proof. vm_compute. reflexivity. Qed.

(** A receiver id spelled in upper case is bob's all the same: the message
    is stored for bob under his id, and the event goes to the room that the
    spelling names. *)
Lemma upper_case_spelling_accepted :
  let o := route_send castHex countingId noon directory (Some (asCaller alice))
             (sendBody "64B000000000000000000002" "Hello") in
  status (response o) = 201
  ∧ m_receiver <$> messages (store o) = [u_id bob]
  ∧ c_participants <$> conversations (store o) = [[u_id alice; u_id bob]]
  ∧ emit_room <$> emitted o = ["64B000000000000000000002"].
Proof. repeat split; vm_compute; reflexivity. Qed.

(** Content that is one no-break space is blank, whoever it is for. *)
Lemma no_break_space_is_blank :
  Js.trim nbsp = ""
  ∧ route_send castHex countingId noon directory (Some (asCaller bob))
      (sendBody (u_id carol) nbsp)
    = answered directory (mkResponse 400 (JError "Message content is required"))
  ∧ route_send castHex countingId noon directory (Some (asCaller alice))
      (sendBody "64b0000000000000000000ff" nbsp)
    = answered directory (mkResponse 400 (JError "Message content is required")).
Proof. repeat split; vm_compute; reflexivity. Qed.

(** A conversation id that is no ObjectId makes either handler answer
    500. *)
Lemma malformed_conversation_id :
  get_messages castHex stableSort helloChat "zzz" (incoming ∅ ∅)
  = reply helloChat 500 (JError "Failed to fetch messages")
  ∧ patch_read castHex helloChat "zzz" (mkRequest ∅ ∅ (Some (asCaller bob)) None)
    = reply helloChat 500 (JError "Failed to mark messages as read").
Proof. split; vm_compute; reflexivity. Qed.

(** C2, on the code.  erin takes no part in the conversation of alice and
    bob.  Her requests to list its messages and to mark them read are both
    answered 404, not 403; the store is not touched and nothing is
    emitted. *)
Lemma outsider_answered_not_found :
  Forall (λ c, u_id erin ∉ c_participants c) (conversations helloChat)
  ∧ route_messages castHex stableSort helloChat (Some (asCaller erin))
      "c00000000000000000000000"
    = answered helloChat (mkResponse 404 (JError "Conversation not found"))
  ∧ route_read castHex helloChat (Some (asCaller erin)) "c00000000000000000000000"
    = answered helloChat (mkResponse 404 (JError "Conversation not found")).
Proof.
  split; [|split].
  - repeat constructor. by_running.
  - apply guarded_not_found.
  - apply guarded_not_found.
Qed.

(** C5, on the code.  bob has one unread message from alice.  His request
    to mark the conversation read, made twice in a row, is answered 404
    both times, where [modifiedCount: 1] and then [modifiedCount: 0] were
    due, and marks nothing: the message is still unread.  The handler
    behind the middleware would have done it: on the request that [auth]
    built it answers 1 and, run again on what it left, 0. *)
Lemma markRead_answered_not_found :
  let conversationId := "c00000000000000000000000" in
  let req := mkRequest {[ "conversationId" := conversationId ]} ∅
                       (Some (asCaller bob)) None in
  let first := route_read castHex helloChat (Some (asCaller bob)) conversationId in
  let second := route_read castHex (store first) (Some (asCaller bob)) conversationId in
  let reached := patch_read castHex helloChat conversationId req in
  unreadIn helloChat conversationId (u_id bob) = 1
  ∧ first = answered helloChat (mkResponse 404 (JError "Conversation not found"))
  ∧ second = answered helloChat (mkResponse 404 (JError "Conversation not found"))
  ∧ unreadIn (store second) conversationId (u_id bob) = 1
  ∧ auth (Some (asCaller bob)) (incoming {[ "conversationId" := conversationId ]} ∅)
    = Next req
  ∧ response reached = mkResponse 200 (JRead 1)
  ∧ response (patch_read castHex (store reached) conversationId req)
    = mkResponse 200 (JRead 0).
Proof.
  intros conversationId req first second reached.
  assert (first = answered helloChat (mkResponse 404 (JError "Conversation not found")))
    as Hfirst by apply guarded_not_found.
  assert (second = answered helloChat (mkResponse 404 (JError "Conversation not found")))
    as Hsecond by (unfold second; rewrite Hfirst; apply guarded_not_found).
  split; [vm_compute; reflexivity|]. split; [exact Hfirst|]. split; [exact Hsecond|].
  split; [rewrite Hsecond; vm_compute; reflexivity|].
  split; [reflexivity|]. split; vm_compute; reflexivity.
Qed.

(** C6, on the code.  bob has one unread message from alice.  The request
    that reaches the read handler is the one [auth] built: it carries bob
    but no conversation, so the handler marks the message (modifiedCount 1)
    and emits nothing, where a [messagesRead] for alice's room was due.  As
    mounted, the route does not even get that far: [messageAuthorization]
    answers 404 and
    the message stays unread. *)
Lemma read_receipt_not_emitted :
  let conversationId := "c00000000000000000000000" in
  let req := mkRequest {[ "conversationId" := conversationId ]} ∅
                       (Some (asCaller bob)) None in
  auth (Some (asCaller bob)) (incoming {[ "conversationId" := conversationId ]} ∅)
  = Next req
  ∧ response (patch_read castHex helloChat conversationId req) = mkResponse 200 (JRead 1)
  ∧ emitted (patch_read castHex helloChat conversationId req) = []
  ∧ route_read castHex helloChat (Some (asCaller bob)) conversationId
    = answered helloChat (mkResponse 404 (JError "Conversation not found")).
Proof.
  intros conversationId req.
  split; [reflexivity|]. split; [vm_compute; reflexivity|].
  split; [apply patch_read_silent | apply guarded_not_found].
Qed.

(** C7, on the code.  alice and bob have exchanged two messages, "Hello"
    and, half a second later, "Hi".  alice's request for the messages of
    their conversation is answered 404, where the two messages in the order
    of their creation were due, whatever sort the database runs.  The
    handler behind the middleware would have listed them in that order. *)
Lemma message_list_answered_not_found :
  let conversationId := "c00000000000000000000000" in
  let req := mkRequest {[ "conversationId" := conversationId ]} ∅
                       (Some (asCaller alice)) None in
  Forall (λ c, c_id c = conversationId ∧ u_id alice ∈ c_participants c)
         (conversations replyChat)
  ∧ (λ m, (m_conversation m, m_content m, m_createdAt m)) <$> messages replyChat
    = [ (conversationId, "Hello", 1700000000000%Z);
        (conversationId, "Hi", 1700000000500%Z) ]
  ∧ (∀ dbSort,
       route_messages castHex dbSort replyChat (Some (asCaller alice)) conversationId
       = answered replyChat (mkResponse 404 (JError "Conversation not found")))
  ∧ auth (Some (asCaller alice)) (incoming {[ "conversationId" := conversationId ]} ∅)
    = Next req
  ∧ (∀ dbSort, SortStage dbSort →
       listedContents (get_messages castHex dbSort replyChat conversationId req)
       = ["Hello"; "Hi"]).
Proof.
  intros conversationId req.
  split; [repeat constructor; by_running|]. split; [reflexivity|].
  split; [intros dbSort; apply guarded_not_found|]. split; [reflexivity|].
  intros dbSort Hsort.
  destruct (get_messages_sorted castHex dbSort Hsort replyChat conversationId
              conversationId req) as (listed & -> & _ & _ & Horder);
    [reflexivity|].
  unfold listedContents. simpl.
  rewrite (list_fmap_compose pm_message m_content), Horder; [reflexivity|].
  vm_compute. repeat constructor.
Qed.

(** The interaction-type test on two roles of the schema: it passes unless
    one of them is [admin]. *)
Lemma isValidInteraction_roles r1 r2 :
  r1 ∈ ["user"; "business"; "admin"] → r2 ∈ ["user"; "business"; "admin"] →
  isValidInteraction [r1; r2] = negb (bool_decide (r1 = "admin") || bool_decide (r2 = "admin")).
Proof.
  intros H1 H2.
  repeat (apply elem_of_cons in H1 as [->|H1]); [| | |by apply elem_of_nil in H1];
    repeat (apply elem_of_cons in H2 as [->|H2]); try (by apply elem_of_nil in H2);
    vm_compute; reflexivity.
Qed.

(** C8, on the code.  bob sends alice three messages and alice reads none:
    the store holds their conversation, with alice among its participants
    and three unread messages addressed to her.  Her conversation list
    comes back empty, where that conversation with [unreadCount: 3] was
    due.  So it does for every store and every caller, whatever sort the
    database runs: the aggregate compares the ObjectIds it finds with a
    string. *)
Lemma conversation_list_comes_back_empty :
  let requests :=
    [ mkSend noon (Some (asCaller bob)) (sendBody (u_id alice) "one");
      mkSend noon (Some (asCaller bob)) (sendBody (u_id alice) "two");
      mkSend noon (Some (asCaller bob)) (sendBody (u_id alice) "three") ] in
  let st := send_all castHex countingId directory requests in
  (∃ c, conversations st = [c]
        ∧ u_id alice ∈ c_participants c
        ∧ unreadIn st (c_id c) (u_id alice) = 3)
  ∧ route_conversations stableSort st (Some (asCaller alice))
    = reply st 200 (JConversations [])
  ∧ (∀ dbSort, SortStage dbSort →
       ∀ st0 caller,
         route_conversations dbSort st0 (Some caller)
         = reply st0 200 (JConversations [])).
Proof.
  intros requests st.
  split; [|split].
  - eexists. split; [vm_compute; reflexivity|].
    split; [by_running | vm_compute; reflexivity].
  - apply (route_conversations_empty stableSort stableSort_stage).
  - intros dbSort Hsort st0 caller. by apply route_conversations_empty.
Qed.

(** C10, on the code.  alice takes part in a conversation with dave, an
    admin.  The role pair would fail the interaction-type test, but the
    middleware never gets to it: both of alice's requests are answered 404, not 403. *)
Lemma admin_conversation_answered_not_found :
  Forall (λ c, u_id alice ∈ c_participants c ∧ u_id dave ∈ c_participants c)
         (conversations adminChat)
  ∧ isValidInteraction [u_role alice; u_role dave] = false
  ∧ route_messages castHex stableSort adminChat (Some (asCaller alice))
      "c00000000000000000000000"
    = answered adminChat (mkResponse 404 (JError "Conversation not found"))
  ∧ route_read castHex adminChat (Some (asCaller alice)) "c00000000000000000000000"
    = answered adminChat (mkResponse 404 (JError "Conversation not found")).
Proof.
  split; [|split; [|split]].
  - repeat constructor; by_running.
  - vm_compute. reflexivity.
  - apply guarded_not_found.
  - apply guarded_not_found.
Qed.

(** ** Rejected sends that are not answered 403 or 400 *)

(** C3 as stated fails: bob and carol are both businesses, yet bob's blank
    message to carol is answered 400, and bob's message to himself 404. *)
Lemma business_send_not_forbidden :
  au_role (asCaller bob) = "business"
  ∧ u_role <$> User_findById directory (u_id carol) = Some "business"
  ∧ u_role <$> User_findById directory (u_id bob) = Some "business"
  ∧ route_send castHex countingId noon directory (Some (asCaller bob))
      (sendBody (u_id carol) "   ")
    = answered directory (mkResponse 400 (JError "Message content is required"))
  ∧ route_send castHex countingId noon directory (Some (asCaller bob))
      (sendBody (u_id bob) "Hello")
    = answered directory (mkResponse 404 (JError "Invalid recipient")).
Proof. repeat split; vm_compute; reflexivity. Qed.

(** C4 as stated fails: a well-formed receiver id that belongs to nobody,
    and the caller's own id, are both answered 404, not 400. *)
Lemma unknown_receiver_not_400 :
  castHex "64b0000000000000000000ff" = Some "64b0000000000000000000ff"
  ∧ User_findById directory "64b0000000000000000000ff" = None
  ∧ route_send castHex countingId noon directory (Some (asCaller alice))
      (sendBody "64b0000000000000000000ff" "Hello")
    = answered directory (mkResponse 404 (JError "Invalid recipient"))
  ∧ route_send castHex countingId noon directory (Some (asCaller alice))
      (sendBody (u_id alice) "Hello")
    = answered directory (mkResponse 404 (JError "Invalid recipient")).
Proof. repeat split; vm_compute; reflexivity. Qed.

(** ** The theorems at work on sample data *)

(** First-ever sends in both directions between alice and bob. *)
Lemma conversation_pair_unique_witness :
  let requests :=
    [ mkSend noon (Some (asCaller alice)) (sendBody (u_id bob) "Hello");
      mkSend noon (Some (asCaller bob)) (sendBody (u_id alice) "Hi") ] in
  let st := send_all castHex countingId directory requests in
  let first := Conversation_findOneAndUpdate countingId 1 st (u_id alice) (u_id bob) in
  let second := Conversation_findOneAndUpdate countingId 2 first.2 (u_id bob) (u_id alice) in
  PairUnique directory
  ∧ u_id alice ≠ u_id bob
  ∧ (length (filter (samePair (u_id alice) (u_id bob)) (conversations st)) ≤ 1)%nat
  ∧ samePair (u_id alice) (u_id bob) first.1
  ∧ length (filter (samePair (u_id alice) (u_id bob)) (conversations first.2)) = 1
  ∧ second = first.
Proof.
  intros requests st first second.
  assert (PairUnique directory) as Hinv by (apply PairUnique_empty; reflexivity).
  assert (u_id alice ≠ u_id bob) as Hne by by_running.
  split; [exact Hinv|]. split; [exact Hne|].
  exact (conversation_pair_unique castHex countingId directory requests
           (u_id alice) (u_id bob) 1 2 Hinv Hne).
Defined.

(** bob writes to carol, spelling her id in upper case. *)
Lemma business_to_business_forbidden_witness :
  let body := sendBody "64B000000000000000000003" "Hello" in
  au_role (asCaller bob) = "business"
  ∧ body !! "receiverId" = Some "64B000000000000000000003"
  ∧ body !! "content" = Some "Hello"
  ∧ castHex "64B000000000000000000003" = Some (u_id carol)
  ∧ Js.trim "Hello" ≠ ""
  ∧ User_findById directory (u_id carol) = Some carol
  ∧ u_role carol = "business"
  ∧ u_id carol ≠ au_id (asCaller bob)
  ∧ route_send castHex countingId noon directory (Some (asCaller bob)) body
    = answered directory
        (mkResponse 403 (JError "Businesses can only message individual users")).
Proof.
  intros body.
  assert (au_role (asCaller bob) = "business") as H1 by reflexivity.
  assert (body !! "receiverId" = Some "64B000000000000000000003") as H2
    by (vm_compute; reflexivity).
  assert (body !! "content" = Some "Hello") as H3 by (vm_compute; reflexivity).
  assert (castHex "64B000000000000000000003" = Some (u_id carol)) as H4
    by (vm_compute; reflexivity).
  assert (Js.trim "Hello" ≠ "") as H5 by (vm_compute; discriminate).
  assert (User_findById directory (u_id carol) = Some carol) as H6
    by (vm_compute; reflexivity).
  assert (u_role carol = "business") as H7 by reflexivity.
  assert (u_id carol ≠ au_id (asCaller bob)) as H8 by by_running.
  do 8 (split; [assumption|]).
  exact (business_to_business_forbidden castHex countingId noon directory (asCaller bob)
           body "64B000000000000000000003" (u_id carol) "Hello" carol
           H1 H2 H3 H4 H5 H6 H7 H8).
Defined.

(** alice writes to her own id, spelled in upper case. *)
Lemma send_input_rejected_witness :
  let body := sendBody "64B000000000000000000001" "Hello" in
  let o := route_send castHex countingId noon directory (Some (asCaller alice)) body in
  (Js.truthy (Js.trim <$> body !! "content") = false
   ∨ (body !! "receiverId" ≫= castHex) ≫= User_findById directory = None
   ∨ body !! "receiverId" ≫= castHex = Some (au_id (asCaller alice)))
  ∧ store o = directory
  ∧ emitted o = []
  ∧ status (response o)
    = if from_option (isValid castHex) false (body !! "receiverId")
         && Js.truthy (Js.trim <$> body !! "content")
      then 404 else 400.
Proof.
  intros body o.
  assert (Js.truthy (Js.trim <$> body !! "content") = false
          ∨ (body !! "receiverId" ≫= castHex) ≫= User_findById directory = None
          ∨ body !! "receiverId" ≫= castHex = Some (au_id (asCaller alice))) as H
    by (right; right; vm_compute; reflexivity).
  split; [exact H|].
  exact (send_input_rejected castHex countingId noon directory (asCaller alice) body H).
Defined.

(** ** The gateways on sample data *)

(** A token whose claims carry [_id] opens the connection into alice's room;
    the join she then asks for comes second. *)
Lemma handshake_joins_identity_room :
  let c := gateway_run castHex sampleVerify newConnection
             [ (directory, Handshake (Some "token-with-_id"));
               (directory, JoinConversation "c00000000000000000000000") ] in
  phase c = Open
  ∧ data_user c = Some (asCaller alice)
  ∧ rooms c = {[ "c00000000000000000000000" ]} ∪ ({[ u_id alice ]} ∪ ∅).
Proof. intros c. split; [reflexivity|]. split; reflexivity. Qed.

(** The tokens signed by [generateAuthToken] carry [id], not [_id]: the
    handshake finds no user for them and refuses the connection. *)
Lemma issued_token_refused :
  gateway_run castHex sampleVerify newConnection
    [ (directory, Handshake (Some "token-with-id"));
      (directory, JoinConversation "c00000000000000000000000") ]
  = mkConnection Closed None ∅ (Some "Authentication failed") [].
Proof. vm_compute. reflexivity. Qed.

(** [setupWebSocket] lets a connection without any token into any room.  No
    module calls it. *)
Lemma setupWebSocket_open_door :
  foldl setupWebSocket_step newConnection [Handshake None; JoinConversation "anywhere"]
  = mkConnection Open None ({[ "anywhere" ]} ∪ ∅) None [].
Proof. reflexivity. Qed.


(** ** The interaction test of the middleware, on any number of participants *)

Lemma noComma_cons c s : noComma (String c s) ↔ c ≠ ","%char ∧ noComma s.
Proof.
  unfold noComma. simpl. rewrite andb_true_iff, negb_true_iff.
  by rewrite Ascii.eqb_neq.
Qed.

Lemma append_nil (b : string) : ("" ++ b)%string = b.
Proof. reflexivity. Qed.

Lemma append_cons c (a b : string) : (String c a ++ b)%string = String c (a ++ b).
Proof. reflexivity. Qed.

(** A name without a comma ends where the first comma of the joined text
    stands. *)
Lemma comma_split a a' b b' :
  noComma a → noComma a' →
  (a ++ "," ++ b = a' ++ "," ++ b')%string → a = a' ∧ b = b'.
Proof.
  revert a'. induction a as [|c a IH]; intros [|c' a'] Ha Ha';
    rewrite ?append_nil, ?append_cons, ?append_nil; intros Heq.
  - by injection Heq as ->.
  - injection Heq as Hc _. apply noComma_cons in Ha' as [Hc' _]. by subst c'.
  - injection Heq as Hc _. apply noComma_cons in Ha as [Hc' _]. by subst c.
  - injection Heq as -> Heq. apply noComma_cons in Ha as [_ Ha].
    apply noComma_cons in Ha' as [_ Ha'].
    destruct (IH a' Ha Ha' Heq) as [-> ->]. done.
Qed.

Lemma comma_inside a b : ¬ noComma (a ++ "," ++ b)%string.
Proof.
  induction a as [|c a IH]; rewrite ?append_nil, ?append_cons, ?append_nil.
  - intros H. by apply noComma_cons in H as [? _].
  - intros H. by apply noComma_cons in H as [_ ?].
Qed.

Lemma insertSorted_Permutation x l : Js.insertSorted x l ≡ₚ x :: l.
Proof.
  induction l as [|y l IH]; simpl; [done|].
  destruct (String.leb x y); [done|]. rewrite IH. apply Permutation_swap.
Qed.

Lemma sort_Permutation l : Js.sort l ≡ₚ l.
Proof.
  induction l as [|x l IH]; simpl; [done|].
  unfold Js.sort in *. simpl. by rewrite insertSorted_Permutation, IH.
Qed.

(** The joined text of comma-free names equals that of a comma-free pair
    only for that pair. *)
Lemma toString_pair l x y :
  Forall noComma l → noComma x → noComma y →
  Js.toString l = Js.toString [x; y] → l = [x; y].
Proof.
  intros Hl Hx Hy. unfold Js.toString.
  destruct l as [|a [|b [|c rest]]]; simpl.
  - intros Heq. exfalso. apply (comma_inside x y). rewrite <- Heq. done.
  - intros Heq. exfalso. apply (comma_inside x y). rewrite <- Heq.
    by apply Forall_cons in Hl as [? _].
  - intros Heq. apply Forall_cons in Hl as [Ha Hl]. apply Forall_cons in Hl as [Hb _].
    by destruct (comma_split a x b y Ha Hx Heq) as [-> ->].
  - intros Heq. apply Forall_cons in Hl as [Ha Hl].
    destruct (comma_split a x _ y Ha Hx Heq) as [_ Hrest].
    exfalso. apply (comma_inside b (String.concat "," (c :: rest))).
    by rewrite <- Hrest in Hy.
Qed.

(** X6.  On role names without a comma (as the three roles of the user
    schema are) the interaction test of the middleware passes exactly for
    two participants, each of role [user] or [business], in either order:
    one participant, three or more, or any role other than these two
    fails it. *)
Theorem interaction_test_decides (roles : list string) :
  Forall noComma roles →
  isValidInteraction roles = true
  ↔ length roles = 2 ∧ Forall (λ r, r = "user" ∨ r = "business") roles.
Proof.
  intros Hroles. split.
  - unfold isValidInteraction. intros Hvalid.
    assert (Forall noComma (Js.sort roles)) as Hsorted
      by (by rewrite sort_Permutation).
    assert (∃ x y, (x = "user" ∨ x = "business") ∧ (y = "user" ∨ y = "business")
                   ∧ Js.sort roles = [x; y]) as (x & y & Hx & Hy & Heq).
    { apply existsb_exists in Hvalid as (types & Hin & Heq).
      apply bool_decide_eq_true in Heq. symmetry in Heq.
      simpl in Hin. destruct Hin as [<-|[<-|[<-|[]]]].
      - exists "user", "user". split; [by left|]. split; [by left|].
        by apply toString_pair.
      - exists "business", "user". split; [by right|]. split; [by left|].
        by apply toString_pair.
      - exists "business", "business". split; [by right|]. split; [by right|].
        by apply toString_pair. }
    pose proof (sort_Permutation roles) as Hperm. rewrite Heq in Hperm.
    split.
    + by rewrite <- Hperm.
    + rewrite <- Hperm. by repeat apply Forall_cons_2.
  - intros [Hlen Hall].
    destruct roles as [|r1 [|r2 [|? ?]]]; try discriminate Hlen.
    apply Forall_cons in Hall as [H1 Hall]. apply Forall_cons in Hall as [H2 _].
    destruct H1 as [-> | ->], H2 as [-> | ->]; reflexivity.
Qed.

Lemma interaction_test_decides_witness :
  Forall noComma ["business"; "user"]
  ∧ (isValidInteraction ["business"; "user"] = true
     ↔ length ["business"; "user"] = 2
       ∧ Forall (λ r, r = "user" ∨ r = "business") ["business"; "user"]).
Proof.
  assert (Forall noComma ["business"; "user"]) as H by (by repeat constructor).
  split; [exact H | exact (interaction_test_decides ["business"; "user"] H)].
Defined.


(** ** The further theorems at work on sample data *)

(** alice writes to bob for the first time, spelling his id in upper
    case. *)
Lemma send_accepted_outcome_witness :
  let body := sendBody "64B000000000000000000002" "  Hello " in
  body !! "receiverId" = Some "64B000000000000000000002"
  ∧ body !! "content" = Some "  Hello "
  ∧ castHex "64B000000000000000000002" = Some (u_id bob)
  ∧ Js.trim "  Hello " ≠ ""
  ∧ User_findById directory (u_id bob) = Some bob
  ∧ u_id bob ≠ au_id (asCaller alice)
  ∧ (au_role (asCaller alice) = "business" → u_role bob = "user")
  ∧ ∃ id c,
      let message := mkMessage id (c_id c) (au_id (asCaller alice)) (u_id bob)
                               (Js.trim "  Hello ") false (at_save noon) in
      let populated :=
        mkPopulated message (User_findById directory (au_id (asCaller alice))) in
      let o := route_send castHex countingId noon directory (Some (asCaller alice)) body in
      response o = mkResponse 201 (JMessage populated)
      ∧ emitted o = [mkEmit "64B000000000000000000002" "newMessage"
                            (NewMessage (c_id c) populated)]
      ∧ messages (store o) = (messages directory ++ [message])%list
      ∧ users (store o) = users directory
      ∧ c ∈ conversations (store o)
      ∧ samePair (au_id (asCaller alice)) (u_id bob) c
      ∧ c_lastActive c = at_touch noon.
Proof.
  intros body.
  assert (body !! "receiverId" = Some "64B000000000000000000002") as H1
    by (vm_compute; reflexivity).
  assert (body !! "content" = Some "  Hello ") as H2 by (vm_compute; reflexivity).
  assert (castHex "64B000000000000000000002" = Some (u_id bob)) as H3
    by (vm_compute; reflexivity).
  assert (Js.trim "  Hello " ≠ "") as H4 by (vm_compute; discriminate).
  assert (User_findById directory (u_id bob) = Some bob) as H5
    by (vm_compute; reflexivity).
  assert (u_id bob ≠ au_id (asCaller alice)) as H6 by by_running.
  assert (au_role (asCaller alice) = "business" → u_role bob = "user") as H7
    by (intros H; vm_compute in H; discriminate H).
  do 7 (split; [assumption|]).
  exact (send_accepted_outcome castHex countingId noon directory (asCaller alice) body
           "64B000000000000000000002" (u_id bob) "  Hello " bob
           H1 H2 H3 H4 H5 H6 H7).
Defined.

(** bob, a business, writes to carol, another business. *)
Lemma send_role_rule_witness :
  let body := sendBody (u_id carol) "Hello" in
  let o := route_send castHex countingId noon directory (Some (asCaller bob)) body in
  body !! "receiverId" = Some (u_id carol)
  ∧ body !! "content" = Some "Hello"
  ∧ castHex (u_id carol) = Some (u_id carol)
  ∧ Js.trim "Hello" ≠ ""
  ∧ User_findById directory (u_id carol) = Some carol
  ∧ u_id carol ≠ au_id (asCaller bob)
  ∧ (status (response o) = 201
     ↔ au_role (asCaller bob) ≠ "business" ∨ u_role carol = "user")
  ∧ (status (response o) = 403
     ↔ au_role (asCaller bob) = "business" ∧ u_role carol ≠ "user")
  ∧ (status (response o) = 403 → store o = directory ∧ emitted o = []).
Proof.
  intros body o.
  assert (body !! "receiverId" = Some (u_id carol)) as H1 by (vm_compute; reflexivity).
  assert (body !! "content" = Some "Hello") as H2 by (vm_compute; reflexivity).
  assert (castHex (u_id carol) = Some (u_id carol)) as H3 by (vm_compute; reflexivity).
  assert (Js.trim "Hello" ≠ "") as H4 by (vm_compute; discriminate).
  assert (User_findById directory (u_id carol) = Some carol) as H5
    by (vm_compute; reflexivity).
  assert (u_id carol ≠ au_id (asCaller bob)) as H6 by by_running.
  do 6 (split; [assumption|]).
  exact (send_role_rule castHex countingId noon directory (asCaller bob) body
           (u_id carol) (u_id carol) "Hello" carol H1 H2 H3 H4 H5 H6).
Defined.

(** A send and a read, starting from the store without messages. *)
Lemma messages_well_addressed_witness :
  let ws :=
    [ WSend noon (mkRequest ∅ (sendBody (u_id bob) "Hello") (Some (asCaller alice)) None);
      WRead "c00000000000000000000000" (mkRequest ∅ ∅ (Some (asCaller bob)) None) ] in
  WellAddressed directory
  ∧ WellAddressed (write_all castHex countingId directory ws).
Proof.
  intros ws.
  assert (WellAddressed directory) as H by constructor.
  split; [exact H|].
  exact (messages_well_addressed castHex countingId ws directory H).
Defined.

(** alice's connection joins the room named by erin's id and hears what bob
    sends to erin. *)
Lemma join_hears_sends_to_others_witness :
  let body := sendBody (u_id erin) "Hello" in
  let trace := [ (directory, Handshake (Some "token-with-_id")) ] in
  let reached := gateway_run castHex sampleVerify newConnection trace in
  let listener := gateway_step castHex sampleVerify directory reached
                               (JoinConversation (u_id erin)) in
  let sent := emitted (route_send castHex countingId noon directory
                         (Some (asCaller bob)) body) in
  body !! "receiverId" = Some (u_id erin)
  ∧ body !! "content" = Some "Hello"
  ∧ castHex (u_id erin) = Some (u_id erin)
  ∧ Js.trim "Hello" ≠ ""
  ∧ User_findById directory (u_id erin) = Some erin
  ∧ u_id erin ≠ au_id (asCaller bob)
  ∧ (au_role (asCaller bob) = "business" → u_role erin = "user")
  ∧ phase reached = Open
  ∧ isValid castHex (u_id erin) = true
  ∧ data_user reached = Some (asCaller alice)
  ∧ data_user listener = data_user reached
  ∧ (∃ e, sent = [e] ∧ emit_event e = "newMessage" ∧ emit_room e = u_id erin)
  ∧ (Forall (hears listener) sent
     ↔ u_id erin = u_id erin ∨ u_id erin ∈ rooms reached).
Proof.
  intros body trace reached listener sent.
  assert (body !! "receiverId" = Some (u_id erin)) as H1 by (vm_compute; reflexivity).
  assert (body !! "content" = Some "Hello") as H2 by (vm_compute; reflexivity).
  assert (castHex (u_id erin) = Some (u_id erin)) as H3 by (vm_compute; reflexivity).
  assert (Js.trim "Hello" ≠ "") as H4 by (vm_compute; discriminate).
  assert (User_findById directory (u_id erin) = Some erin) as H5
    by (vm_compute; reflexivity).
  assert (u_id erin ≠ au_id (asCaller bob)) as H6 by by_running.
  assert (au_role (asCaller bob) = "business" → u_role erin = "user") as H7
    by (intros _; reflexivity).
  assert (phase reached = Open) as H8 by reflexivity.
  assert (isValid castHex (u_id erin) = true) as H9 by (vm_compute; reflexivity).
  assert (data_user reached = Some (asCaller alice)) as H10 by reflexivity.
  do 10 (split; [assumption|]).
  exact (join_hears_sends_to_others castHex countingId sampleVerify noon directory
           (asCaller bob) body (u_id erin) (u_id erin) "Hello" erin directory trace
           (u_id erin) H1 H2 H3 H4 H5 H6 H7 H8 H9).
Defined.


Lemma bearer_prefix_optional_witness :
  noSpace "token-with-id"
  ∧ authenticate sampleVerify dormant (Some "Bearer token-with-id")
    = authenticate sampleVerify dormant (Some "token-with-id").
Proof.
  assert (noSpace "token-with-id") as H by reflexivity.
  split; [exact H|].
  exact (bearer_prefix_optional sampleVerify dormant "token-with-id" H).
Defined.

(** alice logs in: her token is good until it is revoked. *)
Lemma token_issued_until_revoked_witness :
  let token := sampleSign (tokenPayload aliceAccount) 1 in
  let issued := generateAuthToken sampleSign 1 2 aliceAccount registry in
  let revoked := revokeToken token issued.1.2 issued.2 in
  aliceAccount ∈ registry
  ∧ token ≠ ""
  ∧ sampleVerify token = Some {[ "id" := u_id alice ]}
  ∧ ({[ "id" := u_id alice ]} : gmap string string) !! "id"
    = Some (u_id (a_user aliceAccount))
  ∧ issued.1.1 = token
  ∧ authenticate sampleVerify issued.2 (Some ("Bearer " ++ token)%string)
    = Some (identityOf aliceAccount)
  ∧ authenticate sampleVerify revoked.2 (Some ("Bearer " ++ token)%string) = None
  ∧ authenticate sampleVerify (revokeAllTokens issued.1.2 issued.2).2
                 (Some ("Bearer " ++ token)%string) = None
  ∧ ∀ other, other ≠ token →
      authenticate sampleVerify revoked.2 (Some ("Bearer " ++ other)%string)
      = authenticate sampleVerify issued.2 (Some ("Bearer " ++ other)%string).
Proof.
  intros token issued revoked.
  assert (aliceAccount ∈ registry) as H1 by left.
  assert (token ≠ "") as H2 by (vm_compute; discriminate).
  assert (sampleVerify token = Some {[ "id" := u_id alice ]}) as H3
    by (vm_compute; reflexivity).
  assert (({[ "id" := u_id alice ]} : gmap string string) !! "id"
          = Some (u_id (a_user aliceAccount))) as H4 by (vm_compute; reflexivity).
  repeat (split; [assumption|]).
  exact (token_issued_until_revoked sampleVerify sampleSign registry aliceAccount 1 2
           {[ "id" := u_id alice ]} H1 H2 H3 H4).
Defined.

(** alice, switched off, still gets in with the token she holds. *)
Lemma inactive_account_still_authenticates_witness :
  NoDup ((λ x, u_id (a_user x)) <$> dormant)
  ∧ aliceDormant ∈ dormant
  ∧ "token-with-id" ∈ a_tokens aliceDormant
  ∧ "token-with-id" ≠ ""
  ∧ sampleVerify "token-with-id" = Some {[ "id" := u_id alice ]}
  ∧ ({[ "id" := u_id alice ]} : gmap string string) !! "id"
    = Some (u_id (a_user aliceDormant))
  ∧ authenticate sampleVerify dormant (Some ("Bearer " ++ "token-with-id")%string)
    = Some (identityOf aliceDormant)
  ∧ User_findByToken sampleVerify dormant "token-with-id"
    = if a_isActive aliceDormant then Some aliceDormant else None.
Proof.
  assert (NoDup ((λ x, u_id (a_user x)) <$> dormant)) as H1 by by_running.
  assert (aliceDormant ∈ dormant) as H2 by left.
  assert ("token-with-id" ∈ a_tokens aliceDormant) as H3 by left.
  assert ("token-with-id" ≠ "") as H4 by discriminate.
  assert (sampleVerify "token-with-id" = Some {[ "id" := u_id alice ]}) as H5
    by (vm_compute; reflexivity).
  assert (({[ "id" := u_id alice ]} : gmap string string) !! "id"
          = Some (u_id (a_user aliceDormant))) as H6 by (vm_compute; reflexivity).
  repeat (split; [assumption|]).
  exact (inactive_account_still_authenticates sampleVerify dormant aliceDormant
           "token-with-id" {[ "id" := u_id alice ]} H1 H2 H3 H4 H5 H6).
Defined.

(** bob, a business, looks for carol and writes to her. *)
Lemma search_then_send_witness :
  let body := sendBody (u_id carol) "Hello" in
  users directory = p_doc <$> listing
  ∧ Forall (λ u, castHex (u_id u) = Some (u_id u)) (users directory)
  ∧ route_search_users sampleRegex listing (Some (asCaller bob)) (Some "carol")
    = (200, SUsers [carolProfile])
  ∧ carolProfile ∈ [carolProfile]
  ∧ body !! "receiverId" = Some (u_id (p_doc carolProfile))
  ∧ body !! "content" = Some "Hello"
  ∧ Js.trim "Hello" ≠ ""
  ∧ ∃ receiver,
      User_findById directory (u_id (p_doc carolProfile)) = Some receiver
      ∧ status (response (route_send castHex countingId noon directory
                            (Some (asCaller bob)) body))
        = if bool_decide (au_role (asCaller bob) = "business")
             && negb (bool_decide (u_role receiver = "user"))
          then 403 else 201.
Proof.
  intros body.
  assert (users directory = p_doc <$> listing) as H1 by reflexivity.
  assert (Forall (λ u, castHex (u_id u) = Some (u_id u)) (users directory)) as H2
    by (repeat constructor).
  assert (route_search_users sampleRegex listing (Some (asCaller bob)) (Some "carol")
          = (200, SUsers [carolProfile])) as H3 by (vm_compute; reflexivity).
  assert (carolProfile ∈ [carolProfile]) as H4 by left.
  assert (body !! "receiverId" = Some (u_id (p_doc carolProfile))) as H5
    by (vm_compute; reflexivity).
  assert (body !! "content" = Some "Hello") as H6 by (vm_compute; reflexivity).
  assert (Js.trim "Hello" ≠ "") as H7 by (vm_compute; discriminate).
  do 7 (split; [assumption|]).
  exact (search_then_send castHex countingId sampleRegex noon directory listing
           (asCaller bob) (Some "carol") [carolProfile] carolProfile body "Hello"
           H1 H2 H3 H4 H5 H6 H7).
Defined.

